(** * HarmonyViz: the audio-graph lifecycle of the AudioVisualizer component

    The repository holds four successive revisions of one React component:

    - [V1]  src/components/AudioVisualizer.tsx : microphone only;
    - [V2]  src/unnamed/part_000 : microphone and uploaded file, one
            AudioContext per activation;
    - [V3]  src/components/temp.tsx, first half : one shared AudioContext,
            a reused <audio> element and a [busy] flag;
    - [V4]  src/components/temp.tsx, second half : preset tracks, one
            AudioContext per activation.

    The component is embedded shallowly.  The refs, the React state and
    the part of the browser the component talks to form one [World];
    an [async] function is a tree whose nodes are world updates, world
    reads and [await]s, so that a run can be cut at every [await].  JS
    numbers are modelled by exact rationals and integers. *)

From Stdlib Require Import List ZArith QArith Qround String Bool Lia Arith.
Import ListNotations.
Close Scope Q_scope.
Local Open Scope nat_scope.

Set Implicit Arguments.

(** ** Data model *)

Inductive Mode := idle | mic | file.

Definition Mode_eqb (a b : Mode) : bool :=
  match a, b with
  | idle, idle | mic, mic | file, file => true
  | _, _ => false
  end.

(** A thrown value, as far as the component looks at it: [e?.message]. *)
Record JsError := { message : option string }.

(** What the canvas shows. *)
Inductive Surface := Untouched | Black | Spectrum.

(** The <canvas> element: its laid-out box ([getBoundingClientRect]),
    whether [getContext("2d")] answers, and its backing store. *)
Record Canvas := {
  rectW : Q; rectH : Q;
  has2d : bool;
  width : Z; height : Z;
  pixels : Surface
}.

Record Analyser := { node : nat; fftSize : nat; smoothingTimeConstant : Q }.

(** [analyser.frequencyBinCount]: half the transform window. *)
Definition frequencyBinCount (a : Analyser) : nat := fftSize a / 2.

(** A [Uint8Array]: its identity and its content. *)
Record Buffer := { buf : nat; bytes : list Byte.byte }.

(** The hidden <audio> element of V3 and V4. *)
Record AudioEl := {
  src : string; paused : bool; currentTime : Q; muted : bool;
  onended : bool;   (* an end-of-track handler is attached *)
  attached : bool   (* a MediaElementAudioSourceNode was made from it *)
}.

Record File := { name : string }.
Record Track := { id : string; title : string; artist : option string;
                  url : string }.

Inductive Color := black | fade (* rgba(0,0,0,0.15) *) | hsl (hue : Q).

(** What the component asks of the browser, in order. *)
Inductive Event :=
| RequestFrame (id : nat) | CancelFrame (id : nat)
| GetByteFrequencyData
| Resize (w h : Z)
| ClearRect (w h : Z)
| FillStyle (c : Color)
| FillRect (x y w h : Q)
| Connect (a b : nat) | Disconnect (a : nat)
| GetUserMedia | TrackStop (stream : nat)
| NewContext (c : nat) | Suspend (c : nat) | Close (c : nat)
| SourceStart (n : nat) | SourceStop (n : nat)
| Play | Pause
| Onended (hook : bool).

Record Refs := {
  canvasRef : option Canvas;
  audioCtxRef : option nat;
  analyserRef : option Analyser;
  micSourceRef : option nat;      (* [sourceRef] in V1 *)
  micStreamRef : option nat;      (* [streamRef] in V1 *)
  fileSourceRef : option nat;     (* V2: AudioBufferSourceNode *)
  audioElRef : option AudioEl;
  mediaElSourceRef : option nat;
  rafIdRef : option nat;
  dataArrayRef : option Buffer
}.

Record Ui := {
  mode : Mode;
  isMicOn : bool;
  isFilePlaying : bool;
  fileName : option string;
  currentTrackId : option string;
  busy : bool;
  error : option string
}.

(** The browser: pixel density, the spectrum the analyser would report now,
    the next fresh object identity, the connections of the audio graph,
    the frame callbacks that are scheduled, the capture streams whose
    tracks are live, the buffer sources that were started and whose [ended]
    event is still to come, those with an [onended] handler, and the
    trace of requests. *)
Record Host := {
  devicePixelRatio : Q;
  signal : list Byte.byte;
  nextId : nat;
  edges : list (nat * nat);
  frames : list nat;
  liveStreams : list nat;
  liveSources : list nat;
  hooked : list nat;
  log : list Event
}.

Record World := { refs : Refs; ui : Ui; host : Host }.

Definition set_canvasRef (v : option Canvas) (r : Refs) : Refs :=
  {| canvasRef := v; audioCtxRef := audioCtxRef r; analyserRef :=
     analyserRef r; micSourceRef := micSourceRef r; micStreamRef :=
     micStreamRef r; fileSourceRef := fileSourceRef r; audioElRef :=
     audioElRef r; mediaElSourceRef := mediaElSourceRef r; rafIdRef :=
     rafIdRef r; dataArrayRef := dataArrayRef r |}.
Definition set_audioCtxRef (v : option nat) (r : Refs) : Refs :=
  {| canvasRef := canvasRef r; audioCtxRef := v; analyserRef := analyserRef
     r; micSourceRef := micSourceRef r; micStreamRef := micStreamRef r;
     fileSourceRef := fileSourceRef r; audioElRef := audioElRef r;
     mediaElSourceRef := mediaElSourceRef r; rafIdRef := rafIdRef r;
     dataArrayRef := dataArrayRef r |}.
Definition set_analyserRef (v : option Analyser) (r : Refs) : Refs :=
  {| canvasRef := canvasRef r; audioCtxRef := audioCtxRef r; analyserRef :=
     v; micSourceRef := micSourceRef r; micStreamRef := micStreamRef r;
     fileSourceRef := fileSourceRef r; audioElRef := audioElRef r;
     mediaElSourceRef := mediaElSourceRef r; rafIdRef := rafIdRef r;
     dataArrayRef := dataArrayRef r |}.
Definition set_micSourceRef (v : option nat) (r : Refs) : Refs :=
  {| canvasRef := canvasRef r; audioCtxRef := audioCtxRef r; analyserRef :=
     analyserRef r; micSourceRef := v; micStreamRef := micStreamRef r;
     fileSourceRef := fileSourceRef r; audioElRef := audioElRef r;
     mediaElSourceRef := mediaElSourceRef r; rafIdRef := rafIdRef r;
     dataArrayRef := dataArrayRef r |}.
Definition set_micStreamRef (v : option nat) (r : Refs) : Refs :=
  {| canvasRef := canvasRef r; audioCtxRef := audioCtxRef r; analyserRef :=
     analyserRef r; micSourceRef := micSourceRef r; micStreamRef := v;
     fileSourceRef := fileSourceRef r; audioElRef := audioElRef r;
     mediaElSourceRef := mediaElSourceRef r; rafIdRef := rafIdRef r;
     dataArrayRef := dataArrayRef r |}.
Definition set_fileSourceRef (v : option nat) (r : Refs) : Refs :=
  {| canvasRef := canvasRef r; audioCtxRef := audioCtxRef r; analyserRef :=
     analyserRef r; micSourceRef := micSourceRef r; micStreamRef :=
     micStreamRef r; fileSourceRef := v; audioElRef := audioElRef r;
     mediaElSourceRef := mediaElSourceRef r; rafIdRef := rafIdRef r;
     dataArrayRef := dataArrayRef r |}.
Definition set_audioElRef (v : option AudioEl) (r : Refs) : Refs :=
  {| canvasRef := canvasRef r; audioCtxRef := audioCtxRef r; analyserRef :=
     analyserRef r; micSourceRef := micSourceRef r; micStreamRef :=
     micStreamRef r; fileSourceRef := fileSourceRef r; audioElRef := v;
     mediaElSourceRef := mediaElSourceRef r; rafIdRef := rafIdRef r;
     dataArrayRef := dataArrayRef r |}.
Definition set_mediaElSourceRef (v : option nat) (r : Refs) : Refs :=
  {| canvasRef := canvasRef r; audioCtxRef := audioCtxRef r; analyserRef :=
     analyserRef r; micSourceRef := micSourceRef r; micStreamRef :=
     micStreamRef r; fileSourceRef := fileSourceRef r; audioElRef :=
     audioElRef r; mediaElSourceRef := v; rafIdRef := rafIdRef r;
     dataArrayRef := dataArrayRef r |}.
Definition set_rafIdRef (v : option nat) (r : Refs) : Refs :=
  {| canvasRef := canvasRef r; audioCtxRef := audioCtxRef r; analyserRef :=
     analyserRef r; micSourceRef := micSourceRef r; micStreamRef :=
     micStreamRef r; fileSourceRef := fileSourceRef r; audioElRef :=
     audioElRef r; mediaElSourceRef := mediaElSourceRef r; rafIdRef := v;
     dataArrayRef := dataArrayRef r |}.
Definition set_dataArrayRef (v : option Buffer) (r : Refs) : Refs :=
  {| canvasRef := canvasRef r; audioCtxRef := audioCtxRef r; analyserRef :=
     analyserRef r; micSourceRef := micSourceRef r; micStreamRef :=
     micStreamRef r; fileSourceRef := fileSourceRef r; audioElRef :=
     audioElRef r; mediaElSourceRef := mediaElSourceRef r; rafIdRef :=
     rafIdRef r; dataArrayRef := v |}.
Definition set_mode (v : Mode) (u : Ui) : Ui :=
  {| mode := v; isMicOn := isMicOn u; isFilePlaying := isFilePlaying u;
     fileName := fileName u; currentTrackId := currentTrackId u; busy :=
     busy u; error := error u |}.
Definition set_isMicOn (v : bool) (u : Ui) : Ui :=
  {| mode := mode u; isMicOn := v; isFilePlaying := isFilePlaying u;
     fileName := fileName u; currentTrackId := currentTrackId u; busy :=
     busy u; error := error u |}.
Definition set_isFilePlaying (v : bool) (u : Ui) : Ui :=
  {| mode := mode u; isMicOn := isMicOn u; isFilePlaying := v; fileName :=
     fileName u; currentTrackId := currentTrackId u; busy := busy u; error
     := error u |}.
Definition set_fileName (v : option string) (u : Ui) : Ui :=
  {| mode := mode u; isMicOn := isMicOn u; isFilePlaying := isFilePlaying u;
     fileName := v; currentTrackId := currentTrackId u; busy := busy u;
     error := error u |}.
Definition set_currentTrackId (v : option string) (u : Ui) : Ui :=
  {| mode := mode u; isMicOn := isMicOn u; isFilePlaying := isFilePlaying u;
     fileName := fileName u; currentTrackId := v; busy := busy u; error :=
     error u |}.
Definition set_busy (v : bool) (u : Ui) : Ui :=
  {| mode := mode u; isMicOn := isMicOn u; isFilePlaying := isFilePlaying u;
     fileName := fileName u; currentTrackId := currentTrackId u; busy := v;
     error := error u |}.
Definition set_error (v : option string) (u : Ui) : Ui :=
  {| mode := mode u; isMicOn := isMicOn u; isFilePlaying := isFilePlaying u;
     fileName := fileName u; currentTrackId := currentTrackId u; busy :=
     busy u; error := v |}.
Definition set_devicePixelRatio (v : Q) (h : Host) : Host :=
  {| devicePixelRatio := v; signal := signal h; nextId := nextId h; edges :=
     edges h; frames := frames h; liveStreams := liveStreams h; liveSources
     := liveSources h; hooked := hooked h; log := log h |}.
Definition set_signal (v : list Byte.byte) (h : Host) : Host :=
  {| devicePixelRatio := devicePixelRatio h; signal := v; nextId := nextId
     h; edges := edges h; frames := frames h; liveStreams := liveStreams h;
     liveSources := liveSources h; hooked := hooked h; log := log h |}.
Definition set_nextId (v : nat) (h : Host) : Host :=
  {| devicePixelRatio := devicePixelRatio h; signal := signal h; nextId :=
     v; edges := edges h; frames := frames h; liveStreams := liveStreams h;
     liveSources := liveSources h; hooked := hooked h; log := log h |}.
Definition set_edges (v : list (nat * nat)) (h : Host) : Host :=
  {| devicePixelRatio := devicePixelRatio h; signal := signal h; nextId :=
     nextId h; edges := v; frames := frames h; liveStreams := liveStreams h;
     liveSources := liveSources h; hooked := hooked h; log := log h |}.
Definition set_frames (v : list nat) (h : Host) : Host :=
  {| devicePixelRatio := devicePixelRatio h; signal := signal h; nextId :=
     nextId h; edges := edges h; frames := v; liveStreams := liveStreams h;
     liveSources := liveSources h; hooked := hooked h; log := log h |}.
Definition set_liveStreams (v : list nat) (h : Host) : Host :=
  {| devicePixelRatio := devicePixelRatio h; signal := signal h; nextId :=
     nextId h; edges := edges h; frames := frames h; liveStreams := v;
     liveSources := liveSources h; hooked := hooked h; log := log h |}.
Definition set_liveSources (v : list nat) (h : Host) : Host :=
  {| devicePixelRatio := devicePixelRatio h; signal := signal h; nextId :=
     nextId h; edges := edges h; frames := frames h; liveStreams :=
     liveStreams h; liveSources := v; hooked := hooked h; log := log h |}.
Definition set_hooked (v : list nat) (h : Host) : Host :=
  {| devicePixelRatio := devicePixelRatio h; signal := signal h; nextId :=
     nextId h; edges := edges h; frames := frames h; liveStreams :=
     liveStreams h; liveSources := liveSources h; hooked := v; log := log h
     |}.
Definition set_log (v : list Event) (h : Host) : Host :=
  {| devicePixelRatio := devicePixelRatio h; signal := signal h; nextId :=
     nextId h; edges := edges h; frames := frames h; liveStreams :=
     liveStreams h; liveSources := liveSources h; hooked := hooked h; log :=
     v |}.

Definition upd_refs (f : Refs -> Refs) (w : World) : World :=
  {| refs := f (refs w); ui := ui w; host := host w |}.
Definition upd_ui (f : Ui -> Ui) (w : World) : World :=
  {| refs := refs w; ui := f (ui w); host := host w |}.
Definition upd_host (f : Host -> Host) (w : World) : World :=
  {| refs := refs w; ui := ui w; host := f (host w) |}.

(** ** Asynchronous functions *)

Inductive HostCall :=
| CallGetUserMedia | CallSuspend (c : nat) | CallClose (c : nat)
| CallPlay | CallArrayBuffer | CallDecode.

Inductive Reply := Resolved | Rejected (e : JsError).

Inductive Result (A : Type) := Ok (a : A) | Err (e : JsError).
Arguments Err {A} e.

Inductive Async (A : Type) : Type :=
| Ret (a : A)
| Throw (e : JsError)
| Upd (f : World -> World) (k : Async A)
| Rd (k : World -> Async A)
| Await (h : HostCall) (k : Reply -> Async A).
Arguments Throw {A} e.

Fixpoint bind {A B} (p : Async A) (f : A -> Async B) : Async B :=
  match p with
  | Ret a => f a
  | Throw e => Throw e
  | Upd g k => Upd g (bind k f)
  | Rd k => Rd (fun w => bind (k w) f)
  | Await h k => Await h (fun r => bind (k r) f)
  end.

(** [try { p } catch (e) { h e }] *)
Fixpoint try_catch {A} (p : Async A) (h : JsError -> Async A) : Async A :=
  match p with
  | Ret a => Ret a
  | Throw e => h e
  | Upd g k => Upd g (try_catch k h)
  | Rd k => Rd (fun w => try_catch (k w) h)
  | Await c k => Await c (fun r => try_catch (k r) h)
  end.

Declare Scope async_scope.
Delimit Scope async_scope with async.
Bind Scope async_scope with Async.
Notation "x <- p ;; q" := (bind p (fun x => q))
  (at level 61, p at next level, right associativity) : async_scope.
Notation "p ;; q" := (bind p (fun _ => q))
  (at level 61, right associativity) : async_scope.
Local Open Scope async_scope.

(** [try { p } finally { f }] *)
Definition try_finally {A} (p : Async A) (f : Async unit) : Async A :=
  r <- try_catch (a <- p ;; Ret (Ok a)) (fun e => Ret (Err e)) ;;
  f ;;
  match r with Ok a => Ret a | Err e => Throw e end.

(** [try { p } catch {}] *)
Definition ignoring (p : Async unit) : Async unit :=
  try_catch p (fun _ => Ret tt).

Definition modify (f : World -> World) : Async unit := Upd f (Ret tt).
Definition get {B} (f : World -> B) : Async B := Rd (fun w => Ret (f w)).
Definition store {V} (set : V -> Refs -> Refs) (v : V) : Async unit :=
  modify (upd_refs (set v)).
Definition when (b : bool) (p : Async unit) : Async unit :=
  if b then p else Ret tt.

(** A run to the end with nothing interleaved: the browser settles the
    [i]-th [await] of the run, a request [h], by [o h i]. *)
Definition Oracle := HostCall -> nat -> Reply.

Fixpoint exec {A} (p : Async A) (o : Oracle) (i : nat) (w : World)
  : Result A * World :=
  match p with
  | Ret a => (Ok a, w)
  | Throw e => (Err e, w)
  | Upd f k => exec k o i (f w)
  | Rd k => exec (k w) o i w
  | Await h k => exec (k (o h i)) o (S i) w
  end.

Definition after {A} (p : Async A) (o : Oracle) (w : World) : World :=
  snd (exec p o 0 w).
Definition outcome {A} (p : Async A) (o : Oracle) (w : World) : Result A :=
  fst (exec p o 0 w).


(** A run to the next [await]. *)
Inductive Status (A : Type) :=
| Finished (r : Result A)
| Pending (h : HostCall) (k : Reply -> Async A).

Fixpoint advance {A} (p : Async A) (w : World) : Status A * World :=
  match p with
  | Ret a => (Finished (Ok a), w)
  | Throw e => (Finished (Err e), w)
  | Upd f k => advance k (f w)
  | Rd k => advance (k w) w
  | Await h k => (Pending h k, w)
  end.

(** ** The browser interface *)

Definition emit (e : Event) : Async unit :=
  modify (upd_host (fun h => set_log (log h ++ [e]) h)).

Fixpoint emit_all (es : list Event) : Async unit :=
  match es with
  | [] => Ret tt
  | e :: es' => emit e ;; emit_all es'
  end.

(** Every object the browser creates gets the next identity. *)
Definition fresh : Async nat :=
  Rd (fun w => Upd (upd_host (set_nextId (S (nextId (host w)))))
                   (Ret (nextId (host w)))).

Definition requestAnimationFrame : Async nat :=
  r <- fresh ;;
  modify (upd_host (fun h => set_frames (frames h ++ [r]) h)) ;;
  emit (RequestFrame r) ;;
  Ret r.

Definition cancelAnimationFrame (r : nat) : Async unit :=
  modify (upd_host (fun h => set_frames (remove Nat.eq_dec r (frames h)) h)) ;;
  emit (CancelFrame r).

Definition edge_eqb (e f : nat * nat) : bool :=
  (fst e =? fst f) && (snd e =? snd f).

(** The connections of the audio graph: connecting twice is connecting
    once, and disconnecting a node removes all that leave it. *)
Definition link (a b : nat) (es : list (nat * nat)) : list (nat * nat) :=
  if existsb (edge_eqb (a, b)) es then es else es ++ [(a, b)].

Definition unlink (a : nat) (es : list (nat * nat)) : list (nat * nat) :=
  filter (fun e => negb (fst e =? a)) es.

(** [ref.current?.disconnect()] *)
Definition unlink_opt (a : option nat) (es : list (nat * nat))
  : list (nat * nat) :=
  match a with Some a => unlink a es | None => es end.


(** [a.connect(b)] *)
Definition connect (a b : nat) : Async unit :=
  modify (upd_host (fun h => set_edges (link a b (edges h)) h)) ;;
  emit (Connect a b).

(** [a.disconnect()] *)
Definition disconnect (a : nat) : Async unit :=
  modify (upd_host (fun h => set_edges (unlink a (edges h)) h)) ;;
  emit (Disconnect a).

Definition settle (r : Reply) : Async unit :=
  match r with Resolved => Ret tt | Rejected e => Throw e end.

(** [navigator.mediaDevices.getUserMedia({ audio: true })] *)
Definition getUserMedia : Async nat :=
  emit GetUserMedia ;;
  Await CallGetUserMedia (fun r =>
    settle r ;;
    s <- fresh ;;
    modify (upd_host (fun h => set_liveStreams (liveStreams h ++ [s]) h)) ;;
    Ret s).

(** [stream.getTracks().forEach((t) => t.stop())] *)
Definition stopTracks (s : nat) : Async unit :=
  modify (upd_host (fun h =>
    set_liveStreams (remove Nat.eq_dec s (liveStreams h)) h)) ;;
  emit (TrackStop s).

(** [new AudioCtx()]; its destination node carries the context's identity. *)
Definition newAudioContext : Async nat :=
  c <- fresh ;; emit (NewContext c) ;; Ret c.
Definition destination (c : nat) : nat := c.

(** [audioCtx.createAnalyser()], with the defaults of the Web Audio API. *)
Definition createAnalyser (c : nat) : Async Analyser :=
  a <- fresh ;;
  Ret {| node := a; fftSize := 2048; smoothingTimeConstant := 8 # 10 |}.

Definition configure (a : Analyser) : Analyser :=
  (* analyser.fftSize = 256; analyser.smoothingTimeConstant = 0.8; *)
  {| node := node a; fftSize := 256; smoothingTimeConstant := 8 # 10 |}.

Definition createMediaStreamSource (c s : nat) : Async nat := fresh.
Definition createBufferSource (c : nat) : Async nat := fresh.

Definition suspend (c : nat) : Async unit :=
  emit (Suspend c) ;; Await (CallSuspend c) settle.
Definition close (c : nat) : Async unit :=
  emit (Close c) ;; Await (CallClose c) settle.

(** [new Uint8Array(n)] *)
Definition newUint8Array (n : nat) : Async Buffer :=
  b <- fresh ;; Ret {| buf := b; bytes := repeat Byte.x00 n |}.

(** [analyser.getByteFrequencyData(array)] copies as many magnitudes as
    the array holds. *)
Fixpoint overwrite (sig arr : list Byte.byte) : list Byte.byte :=
  match arr, sig with
  | [], _ => []
  | _, [] => arr
  | _ :: arr', s :: sig' => s :: overwrite sig' arr'
  end.

(** ** Canvas (identical in the four revisions) *)

Definition paint (s : Surface) (c : Canvas) : Canvas :=
  {| rectW := rectW c; rectH := rectH c; has2d := has2d c;
     width := width c; height := height c; pixels := s |}.

(** The body of [fitCanvas] on a mounted canvas:
      const dpr = window.devicePixelRatio || 1;
      canvas.width = Math.max(1, Math.floor(rect.width * dpr));
      canvas.height = Math.max(1, Math.floor(rect.height * dpr)); *)
Definition fit (devicePixelRatio : Q) (c : Canvas) : Canvas :=
  let dpr := if Qeq_bool devicePixelRatio 0 then 1%Q else devicePixelRatio in
  {| rectW := rectW c; rectH := rectH c; has2d := has2d c;
     width := Z.max 1 (Qfloor (rectW c * dpr));
     height := Z.max 1 (Qfloor (rectH c * dpr));
     pixels := pixels c |}.

Definition fitCanvas : Async unit :=
  Rd (fun w =>
    match canvasRef (refs w) with
    | None => Ret tt
    | Some canvas =>
        let canvas' := fit (devicePixelRatio (host w)) canvas in
        store set_canvasRef (Some canvas') ;;
        emit (Resize (width canvas') (height canvas'))
    end).

Definition clearCanvas : Async unit :=
  Rd (fun w =>
    match canvasRef (refs w) with
    | None => Ret tt
    | Some canvas =>
        if has2d canvas then
          emit (ClearRect (width canvas) (height canvas)) ;;
          emit (FillStyle black) ;;
          emit (FillRect 0 0 (inject_Z (width canvas))
                             (inject_Z (height canvas))) ;;
          store set_canvasRef (Some (paint Black canvas))
        else Ret tt
    end).

(** ** Render loop (identical in the four revisions) *)

Definition stopRenderLoop : Async unit :=
  Rd (fun w =>
    match rafIdRef (refs w) with
    | Some r => cancelAnimationFrame r ;; store set_rafIdRef None
    | None => Ret tt
    end).

Definition byteQ (v : Byte.byte) : Q := inject_Z (Z.of_N (Byte.to_N v)).
Definition natQ (n : nat) : Q := inject_Z (Z.of_nat n).

(** One bar of the spectrum. *)
Record Bar := { bar_hue : Q; bar_x : Q; bar_y : Q; bar_w : Q; bar_h : Q }.

(** The [for] loop of [draw], from index [i] and abscissa [x] on:
      const v = dataArray[i];
      const barH = (v / 255) * (H * 0.9);
      const hue = (i / n) * 300;
      ctx2d.fillRect(x, H - barH, barW, barH);
      x += barW + 1;
    Numbers are kept in lowest terms. *)
Fixpoint bars (n : nat) (H : Z) (barW : Q) (i : nat) (x : Q)
  (data : list Byte.byte) : list Bar :=
  match data with
  | [] => []
  | v :: rest =>
      let barH := Qred (byteQ v / 255 * (inject_Z H * (9 # 10)))%Q in
      let hue := Qred (natQ i / natQ n * 300)%Q in
      {| bar_hue := hue; bar_x := x; bar_y := Qred (inject_Z H - barH)%Q;
         bar_w := barW; bar_h := barH |}
      :: bars n H barW (S i) (Qred (x + (barW + 1)))%Q rest
  end.

Definition bar_events (b : Bar) : list Event :=
  [FillStyle (hsl (bar_hue b)); FillRect (bar_x b) (bar_y b) (bar_w b) (bar_h b)].

Definition draw : Async unit :=
  Rd (fun w =>
    match canvasRef (refs w), analyserRef (refs w), dataArrayRef (refs w) with
    | Some canvas, Some analyser, Some dataArray =>
        if has2d canvas then
          let W := width canvas in
          let H := height canvas in
          r <- requestAnimationFrame ;;
          store set_rafIdRef (Some r) ;;
          emit GetByteFrequencyData ;;
          let sampled := overwrite (signal (host w)) (bytes dataArray) in
          store set_dataArrayRef
                (Some {| buf := buf dataArray; bytes := sampled |}) ;;
          emit (FillStyle fade) ;;
          emit (FillRect 0 0 (inject_Z W) (inject_Z H)) ;;
          let n := List.length sampled in
          let barW := Qred (inject_Z W / natQ n * (22 # 10))%Q in
          emit_all (flat_map bar_events (bars n H barW 0 0 sampled)) ;;
          store set_canvasRef (Some (paint Spectrum canvas))
        else Ret tt
    | _, _, _ => Ret tt
    end).

(** ** React state setters and small idioms *)

Definition setMode (f : Mode -> Mode) : Async unit :=
  modify (upd_ui (fun u => set_mode (f (mode u)) u)).
Definition setIsMicOn (b : bool) : Async unit := modify (upd_ui (set_isMicOn b)).
Definition setIsFilePlaying (b : bool) : Async unit :=
  modify (upd_ui (set_isFilePlaying b)).
Definition setFileName (s : option string) : Async unit :=
  modify (upd_ui (set_fileName s)).
Definition setCurrentTrackId (s : option string) : Async unit :=
  modify (upd_ui (set_currentTrackId s)).
Definition setBusy (b : bool) : Async unit := modify (upd_ui (set_busy b)).
Definition setError (s : option string) : Async unit :=
  modify (upd_ui (set_error s)).

(** [m === "mic" ? "idle" : m] and [m === "file" ? "idle" : m] *)
Definition leave (kind : Mode) (m : Mode) : Mode :=
  if Mode_eqb m kind then idle else m.

(** [e?.message ?? fallback] *)
Definition message_or (e : JsError) (fallback : string) : string :=
  match message e with Some m => m | None => fallback end.

Definition TypeError : JsError :=
  {| message := Some "Cannot read properties of null"%string |}.
Definition InvalidStateError : JsError :=
  {| message := Some "InvalidStateError"%string |}.

(** [ref.current.method(...)]: a TypeError when the ref holds null. *)
Definition deref {V} (f : Refs -> option V) : Async V :=
  Rd (fun w => match f (refs w) with
               | Some v => Ret v
               | None => Throw TypeError
               end).

(** [ref.current?.method(...)] and [if (ref.current) { ... }] *)
Definition opt {V} (f : Refs -> option V) (k : V -> Async unit) : Async unit :=
  Rd (fun w => match f (refs w) with
               | Some v => k v
               | None => Ret tt
               end).

Definition allocFrequencyBuffer (analyser : Analyser) : Async unit :=
  dataArray <- newUint8Array (frequencyBinCount analyser) ;;
  store set_dataArrayRef (Some dataArray).

(** [src.start(0)], [src.stop(0)] and [src.onended = ...] of an
    AudioBufferSourceNode.  A stopped source still owes its [ended]
    event. *)
Definition sourceStart (n : nat) : Async unit :=
  modify (upd_host (fun h => set_liveSources (liveSources h ++ [n]) h)) ;;
  emit (SourceStart n).
Definition sourceStop (n : nat) : Async unit :=
  Rd (fun w =>
    if existsb (Nat.eqb n) (liveSources (host w)) then emit (SourceStop n)
    else Throw InvalidStateError).
Definition sourceHook (n : nat) : Async unit :=
  modify (upd_host (fun h => set_hooked (hooked h ++ [n]) h)) ;;
  emit (Onended true).

(** The <audio> element. *)
Definition set_el (f : AudioEl -> AudioEl) : Async unit :=
  el <- deref audioElRef ;; store set_audioElRef (Some (f el)).

Definition el_onended (b : bool) : Async unit :=
  set_el (fun el => {| src := src el; paused := paused el;
                       currentTime := currentTime el; muted := muted el;
                       onended := b; attached := attached el |}) ;;
  emit (Onended b).
Definition el_pause : Async unit :=
  set_el (fun el => {| src := src el; paused := true;
                       currentTime := currentTime el; muted := muted el;
                       onended := onended el; attached := attached el |}) ;;
  emit Pause.
Definition el_rewind : Async unit :=
  set_el (fun el => {| src := src el; paused := paused el;
                       currentTime := 0; muted := muted el;
                       onended := onended el; attached := attached el |}).
Definition el_src (u : string) : Async unit :=
  set_el (fun el => {| src := u; paused := paused el;
                       currentTime := currentTime el; muted := muted el;
                       onended := onended el; attached := attached el |}).
(** [await el.play()]: the element leaves the paused state at once; the
    promise settles later. *)
Definition el_play : Async unit :=
  set_el (fun el => {| src := src el; paused := false;
                       currentTime := currentTime el; muted := muted el;
                       onended := onended el; attached := attached el |}) ;;
  emit Play ;;
  Await CallPlay settle.

(** [new Audio()] *)
Definition newAudio (mute : bool) : AudioEl :=
  {| src := ""%string; paused := true; currentTime := 0; muted := mute;
     onended := false; attached := false |}.

(** [ctx.createMediaElementSource(el)]: an element feeds one source node in
    its life; a second request is an InvalidStateError. *)
Definition createMediaElementSource (c : nat) : Async nat :=
  el <- deref audioElRef ;;
  if attached el then Throw InvalidStateError
  else
    store set_audioElRef
      (Some {| src := src el; paused := paused el;
               currentTime := currentTime el; muted := muted el;
               onended := onended el; attached := true |}) ;;
    fresh.

(** ** V1: src/components/AudioVisualizer.tsx *)

Module V1.

Definition startMic : Async unit :=
  try_catch
    (setError None ;;
     stream <- getUserMedia ;;
     store set_micStreamRef (Some stream) ;;
     audioCtx <- newAudioContext ;;
     store set_audioCtxRef (Some audioCtx) ;;
     analyser0 <- createAnalyser audioCtx ;;
     let analyser := configure analyser0 in
     store set_analyserRef (Some analyser) ;;
     source <- createMediaStreamSource audioCtx stream ;;
     store set_micSourceRef (Some source) ;;
     connect source (node analyser) ;;
     allocFrequencyBuffer analyser ;;
     fitCanvas ;;
     clearCanvas ;;
     draw ;;
     setIsMicOn true)
    (fun e =>
     setError (Some (message_or e
       "Microphone permission denied or unavailable.")) ;;
     clearCanvas ;;
     setIsMicOn false).

Definition stopMic : Async unit :=
  ignoring
    (stopRenderLoop ;;
     opt micSourceRef disconnect ;;
     opt analyserRef (fun a => disconnect (node a)) ;;
     store set_micSourceRef None ;;
     store set_analyserRef None ;;
     store set_dataArrayRef None ;;
     opt micStreamRef stopTracks ;;
     store set_micStreamRef None ;;
     opt audioCtxRef (fun _ =>
       ignoring (c <- deref audioCtxRef ;; suspend c) ;;
       ignoring (c <- deref audioCtxRef ;; close c)) ;;
     store set_audioCtxRef None ;;
     clearCanvas ;;
     setIsMicOn false).

End V1.

(** [teardownContext], the same in V2 and V4. *)
Definition teardownContext : Async unit :=
  try_finally
    (opt audioCtxRef (fun _ =>
       ignoring (c <- deref audioCtxRef ;; suspend c) ;;
       ignoring (c <- deref audioCtxRef ;; close c)))
    (store set_audioCtxRef None ;;
     store set_analyserRef None ;;
     store set_dataArrayRef None).

(** ** V2: src/unnamed/part_000 *)

Module V2.

Definition stopMic : Async unit :=
  ignoring
    (stopRenderLoop ;;
     opt micSourceRef disconnect ;;
     store set_micSourceRef None ;;
     opt micStreamRef stopTracks ;;
     store set_micStreamRef None ;;
     teardownContext ;;
     clearCanvas ;;
     setIsMicOn false ;;
     setMode (leave mic)).

Definition stopFilePlayback : Async unit :=
  ignoring
    (stopRenderLoop ;;
     opt fileSourceRef (fun _ =>
       ignoring (s <- deref fileSourceRef ;; sourceStop s) ;;
       ignoring (s <- deref fileSourceRef ;; disconnect s) ;;
       store set_fileSourceRef None) ;;
     teardownContext ;;
     clearCanvas ;;
     setIsFilePlaying false ;;
     setMode (leave file) ;;
     setFileName None).

Definition startMic : Async unit :=
  stopFilePlayback ;;
  try_catch
    (setError None ;;
     stream <- getUserMedia ;;
     store set_micStreamRef (Some stream) ;;
     audioCtx <- newAudioContext ;;
     store set_audioCtxRef (Some audioCtx) ;;
     analyser0 <- createAnalyser audioCtx ;;
     let analyser := configure analyser0 in
     store set_analyserRef (Some analyser) ;;
     source <- createMediaStreamSource audioCtx stream ;;
     store set_micSourceRef (Some source) ;;
     connect source (node analyser) ;;
     allocFrequencyBuffer analyser ;;
     fitCanvas ;;
     clearCanvas ;;
     draw ;;
     setMode (fun _ => mic) ;;
     setIsMicOn true ;;
     setIsFilePlaying false ;;
     setFileName None)
    (fun e =>
     setError (Some (message_or e
       "Microphone permission denied or unavailable.")) ;;
     clearCanvas ;;
     setMode (fun _ => idle) ;;
     setIsMicOn false).

(** [src.onended] of [startFilePlayback] *)
Definition onended_handler : Async unit :=
  stopRenderLoop ;;
  teardownContext ;;
  store set_fileSourceRef None ;;
  setIsFilePlaying false ;;
  setMode (leave file) ;;
  clearCanvas.

Definition startFilePlayback (f : File) : Async unit :=
  stopMic ;;
  try_catch
    (setError None ;;
     Await CallArrayBuffer settle ;;
     audioCtx <- newAudioContext ;;
     store set_audioCtxRef (Some audioCtx) ;;
     analyser0 <- createAnalyser audioCtx ;;
     let analyser := configure analyser0 in
     store set_analyserRef (Some analyser) ;;
     Await CallDecode settle ;;
     src <- createBufferSource audioCtx ;;
     connect src (node analyser) ;;
     connect (node analyser) (destination audioCtx) ;;
     store set_fileSourceRef (Some src) ;;
     allocFrequencyBuffer analyser ;;
     fitCanvas ;;
     clearCanvas ;;
     draw ;;
     sourceStart src ;;
     setMode (fun _ => file) ;;
     setIsFilePlaying true ;;
     setFileName (Some (name f)) ;;
     sourceHook src)
    (fun e =>
     setError (Some (message_or e
       "Failed to play the selected audio file.")) ;;
     clearCanvas ;;
     setIsFilePlaying false ;;
     setMode (fun _ => idle) ;;
     store set_fileSourceRef None).

End V2.

(** ** V3: src/components/temp.tsx, first revision *)

Module V3.

Definition disconnectAll : Async unit :=
  ignoring (opt micSourceRef disconnect) ;;
  ignoring (opt mediaElSourceRef disconnect) ;;
  ignoring (opt analyserRef (fun a => disconnect (node a))).

Definition connectForMic : Async unit :=
  Rd (fun w =>
    match audioCtxRef (refs w), analyserRef (refs w), micSourceRef (refs w) with
    | Some c, Some a, Some s =>
        connect s (node a) ;; connect (node a) (destination c)
    | _, _, _ => Ret tt
    end).

Definition connectForFile : Async unit :=
  Rd (fun w =>
    match audioCtxRef (refs w), analyserRef (refs w),
          mediaElSourceRef (refs w) with
    | Some c, Some a, Some s =>
        connect s (node a) ;; connect (node a) (destination c)
    | _, _, _ => Ret tt
    end).

Definition stopPresetPlayback : Async unit :=
  opt audioElRef (fun _ =>
    ignoring
      (stopRenderLoop ;;
       el_onended false ;;
       el_pause ;;
       el_rewind) ;;
    disconnectAll ;;
    clearCanvas ;;
    setIsFilePlaying false ;;
    setCurrentTrackId None ;;
    setMode (leave file)).

Definition startMic : Async unit :=
  opt audioCtxRef (fun _ =>
    setBusy true ;;
    stopPresetPlayback ;;
    try_finally
      (try_catch
        (setError None ;;
         stream <- getUserMedia ;;
         store set_micStreamRef (Some stream) ;;
         c <- deref audioCtxRef ;;
         src <- createMediaStreamSource c stream ;;
         store set_micSourceRef (Some src) ;;
         disconnectAll ;;
         connectForMic ;;
         fitCanvas ;;
         clearCanvas ;;
         draw ;;
         setMode (fun _ => mic) ;;
         setIsMicOn true ;;
         setIsFilePlaying false ;;
         setCurrentTrackId None)
        (fun e =>
         setError (Some (message_or e
           "Microphone permission denied or unavailable.")) ;;
         clearCanvas ;;
         setMode (fun _ => idle) ;;
         setIsMicOn false))
      (setBusy false)).

Definition stopMic : Async unit :=
  opt audioCtxRef (fun _ =>
    ignoring
      (stopRenderLoop ;;
       ignoring (opt micSourceRef disconnect) ;;
       store set_micSourceRef None ;;
       ignoring (opt micStreamRef stopTracks) ;;
       store set_micStreamRef None ;;
       clearCanvas ;;
       setIsMicOn false ;;
       setMode (leave mic))).

(** [audioElRef.current.onended] of [startPreset] *)
Definition onended_handler : Async unit :=
  stopRenderLoop ;;
  setIsFilePlaying false ;;
  setCurrentTrackId None ;;
  setMode (fun _ => idle) ;;
  clearCanvas ;;
  disconnectAll.

Definition startPreset (track : Track) : Async unit :=
  Rd (fun w =>
    match audioCtxRef (refs w), audioElRef (refs w) with
    | Some _, Some _ =>
      if busy (ui w) then Ret tt
      else
        setBusy true ;;
        stopMic ;;
        ignoring (el_onended false ;; el_pause) ;;
        try_finally
          (try_catch
            (disconnectAll ;;
             connectForFile ;;
             el_src (url track) ;;
             el_rewind ;;
             fitCanvas ;;
             clearCanvas ;;
             draw ;;
             el_play ;;
             setMode (fun _ => file) ;;
             setIsFilePlaying true ;;
             setCurrentTrackId (Some (id track)) ;;
             el_onended true)
            (fun e =>
             setError (Some (message_or e "Failed to play track.")) ;;
             setIsFilePlaying false ;;
             setCurrentTrackId None ;;
             setMode (fun _ => idle) ;;
             clearCanvas ;;
             disconnectAll))
          (setBusy false)
    | _, _ => Ret tt
    end).

(** The mount effect: one context, one analyser, one muted <audio>, one
    media source and one buffer; then the microphone is started. *)
Definition mount : Async unit :=
  ctx <- newAudioContext ;;
  store set_audioCtxRef (Some ctx) ;;
  analyser0 <- createAnalyser ctx ;;
  let analyser := configure analyser0 in
  store set_analyserRef (Some analyser) ;;
  store set_audioElRef (Some (newAudio true)) ;;
  mediaSrc <- createMediaElementSource ctx ;;
  store set_mediaElSourceRef (Some mediaSrc) ;;
  allocFrequencyBuffer analyser ;;
  startMic.

End V3.

(** ** V4: src/components/temp.tsx, second revision *)

Module V4.

Definition stopPresetPlayback : Async unit :=
  ignoring
    (stopRenderLoop ;;
     opt audioElRef (fun _ =>
       ignoring (el_onended false) ;;
       ignoring el_pause ;;
       ignoring el_rewind) ;;
     opt mediaElSourceRef (fun _ =>
       ignoring (s <- deref mediaElSourceRef ;; disconnect s) ;;
       store set_mediaElSourceRef None) ;;
     teardownContext ;;
     clearCanvas ;;
     setIsFilePlaying false ;;
     setCurrentTrackId None ;;
     setMode (leave file)).

Definition startMic : Async unit :=
  stopPresetPlayback ;;
  try_catch
    (setError None ;;
     stream <- getUserMedia ;;
     store set_micStreamRef (Some stream) ;;
     audioCtx <- newAudioContext ;;
     store set_audioCtxRef (Some audioCtx) ;;
     analyser0 <- createAnalyser audioCtx ;;
     let analyser := configure analyser0 in
     store set_analyserRef (Some analyser) ;;
     src <- createMediaStreamSource audioCtx stream ;;
     store set_micSourceRef (Some src) ;;
     connect src (node analyser) ;;
     allocFrequencyBuffer analyser ;;
     fitCanvas ;;
     clearCanvas ;;
     draw ;;
     setMode (fun _ => mic) ;;
     setIsMicOn true ;;
     setCurrentTrackId None ;;
     setIsFilePlaying false)
    (fun e =>
     setError (Some (message_or e
       "Microphone permission denied or unavailable.")) ;;
     clearCanvas ;;
     setMode (fun _ => idle) ;;
     setIsMicOn false).

Definition stopMic : Async unit :=
  ignoring
    (stopRenderLoop ;;
     opt micSourceRef disconnect ;;
     store set_micSourceRef None ;;
     opt micStreamRef stopTracks ;;
     store set_micStreamRef None ;;
     teardownContext ;;
     clearCanvas ;;
     setIsMicOn false ;;
     setMode (leave mic)).

Definition ensureAudioElement : Async unit :=
  Rd (fun w =>
    match audioElRef (refs w) with
    | None => store set_audioElRef (Some (newAudio false))
    | Some _ => Ret tt
    end).

(** [el.onended] of [startPreset] *)
Definition onended_handler : Async unit :=
  stopRenderLoop ;;
  teardownContext ;;
  store set_mediaElSourceRef None ;;
  setIsFilePlaying false ;;
  setMode (leave file) ;;
  clearCanvas.

Definition startPreset (track : Track) : Async unit :=
  stopMic ;;
  stopPresetPlayback ;;
  try_catch
    (setError None ;;
     ensureAudioElement ;;
     el_src (url track) ;;
     audioCtx <- newAudioContext ;;
     store set_audioCtxRef (Some audioCtx) ;;
     analyser0 <- createAnalyser audioCtx ;;
     let analyser := configure analyser0 in
     store set_analyserRef (Some analyser) ;;
     mediaSrc <- createMediaElementSource audioCtx ;;
     connect mediaSrc (node analyser) ;;
     connect (node analyser) (destination audioCtx) ;;
     store set_mediaElSourceRef (Some mediaSrc) ;;
     allocFrequencyBuffer analyser ;;
     fitCanvas ;;
     clearCanvas ;;
     draw ;;
     el_play ;;
     setMode (fun _ => file) ;;
     setCurrentTrackId (Some (id track)) ;;
     setIsFilePlaying true ;;
     el_onended true)
    (fun e =>
     setError (Some (message_or e "Failed to play track.")) ;;
     clearCanvas ;;
     setIsFilePlaying false ;;
     setMode (fun _ => idle) ;;
     store set_mediaElSourceRef None).

End V4.

(** ** The event loop

    Between two [await]s a run is atomic.  A suspended run waits for the
    browser to settle its promise; meanwhile the browser may start other
    runs: a call of one of the component's functions, a frame callback, an
    [ended] event. *)

Inductive TaskKind := CallTask | HandlerTask.

Record Task := {
  kind : TaskKind;
  awaiting : HostCall;
  resume : Reply -> Async unit
}.

Record Loop := { world : World; tasks : list Task }.

Definition start (w : World) : Loop := {| world := w; tasks := [] |}.

Definition spawn (k : TaskKind) (p : Async unit) (w : World)
  (waiting : list Task) : Loop :=
  match advance p w with
  | (Finished _, w') => {| world := w'; tasks := waiting |}
  | (Pending h f, w') =>
      {| world := w';
         tasks := waiting ++ [{| kind := k; awaiting := h; resume := f |}] |}
  end.

Fixpoint take {T} (i : nat) (l : list T) : option (T * list T) :=
  match l, i with
  | [], _ => None
  | x :: l', 0 => Some (x, l')
  | x :: l', S j =>
      match take j l' with
      | Some (y, rest) => Some (y, x :: rest)
      | None => None
      end
  end.

Section Component.

Variable Op : Type.

(** A revision of the component: the functions the UI can call and the
    end-of-track handler it installs. *)
Record Component := {
  body : Op -> Async unit;
  handler : Async unit
}.

Inductive Input :=
| Invoke (op : Op)                      (* the UI calls a function *)
| Settle (i : nat) (r : Reply)          (* the promise of the i-th suspended run settles *)
| Frame (spectrum : list Byte.byte)     (* the oldest scheduled frame callback runs *)
| SourceEnded (n : nat)                 (* [ended] on a buffer source *)
| ElementEnded.                         (* the <audio> element plays to its end *)

Variable C : Component.

Definition element_ended (w : World) : option (World * bool) :=
  match audioElRef (refs w) with
  | Some el =>
      if paused el then None
      else Some (upd_refs (set_audioElRef (Some
                   {| src := src el; paused := true;
                      currentTime := currentTime el; muted := muted el;
                      onended := onended el; attached := attached el |})) w,
                 onended el)
  | None => None
  end.

Definition step (i : Input) (l : Loop) : Loop :=
  match i with
  | Invoke op => spawn CallTask (body C op) (world l) (tasks l)
  | Settle n r =>
      match take n (tasks l) with
      | Some (t, rest) => spawn (kind t) (resume t r) (world l) rest
      | None => l
      end
  | Frame spectrum =>
      match frames (host (world l)) with
      | r :: rest =>
          spawn HandlerTask draw
            (upd_host (fun h => set_signal spectrum (set_frames rest h))
                      (world l))
            (tasks l)
      | [] => l
      end
  | SourceEnded n =>
      if existsb (Nat.eqb n) (liveSources (host (world l))) then
        let w := upd_host (fun h =>
                   set_liveSources (remove Nat.eq_dec n (liveSources h)) h)
                   (world l) in
        if existsb (Nat.eqb n) (hooked (host w))
        then spawn HandlerTask (handler C) w (tasks l)
        else {| world := w; tasks := tasks l |}
      else l
  | ElementEnded =>
      match element_ended (world l) with
      | Some (w, true) => spawn HandlerTask (handler C) w (tasks l)
      | Some (w, false) => {| world := w; tasks := tasks l |}
      | None => l
      end
  end.

Fixpoint run (ins : list Input) (l : Loop) : Loop :=
  match ins with
  | [] => l
  | i :: ins' => run ins' (step i l)
  end.




End Component.

Arguments Invoke {Op} op.
Arguments Settle {Op} i r.
Arguments Frame {Op} spectrum.
Arguments SourceEnded {Op} n.
Arguments ElementEnded {Op}.

Module V2Loop.
Inductive Op := StartMic | StopMic | StartFile (f : File) | StopFile.
Definition component : Component Op :=
  {| body := fun op => match op with
                       | StartMic => V2.startMic
                       | StopMic => V2.stopMic
                       | StartFile f => V2.startFilePlayback f
                       | StopFile => V2.stopFilePlayback
                       end;
     handler := V2.onended_handler |}.
End V2Loop.

Module V3Loop.
Inductive Op := Mount | StartMic | StopMic | StartPreset (t : Track) | StopPreset.
Definition component : Component Op :=
  {| body := fun op => match op with
                       | Mount => V3.mount
                       | StartMic => V3.startMic
                       | StopMic => V3.stopMic
                       | StartPreset t => V3.startPreset t
                       | StopPreset => V3.stopPresetPlayback
                       end;
     handler := V3.onended_handler |}.
End V3Loop.

Module V4Loop.
Inductive Op := StartMic | StopMic | StartPreset (t : Track) | StopPreset.
Definition component : Component Op :=
  {| body := fun op => match op with
                       | StartMic => V4.startMic
                       | StopMic => V4.stopMic
                       | StartPreset t => V4.startPreset t
                       | StopPreset => V4.stopPresetPlayback
                       end;
     handler := V4.onended_handler |}.
End V4Loop.

(** The component before its first effect: nothing referenced, nothing
    scheduled, nothing connected. *)
Definition blank_refs (canvas : option Canvas) : Refs :=
  {| canvasRef := canvas; audioCtxRef := None; analyserRef := None;
     micSourceRef := None; micStreamRef := None; fileSourceRef := None;
     audioElRef := None; mediaElSourceRef := None; rafIdRef := None;
     dataArrayRef := None |}.

Definition init (canvas : option Canvas) (dpr : Q) : World :=
  {| refs := blank_refs canvas;
     ui := {| mode := idle; isMicOn := false; isFilePlaying := false;
              fileName := None; currentTrackId := None; busy := false;
              error := None |};
     host := {| devicePixelRatio := dpr; signal := []; nextId := 0;
                edges := []; frames := []; liveStreams := [];
                liveSources := []; hooked := []; log := [] |} |}.

(** ** What the claims speak of *)



(** The canvas, if there is one to paint on, shows the background. *)
Definition blanked (w : World) : Prop :=
  forall c, canvasRef (refs w) = Some c -> has2d c = true -> pixels c = Black.



(** Playback begins: [src.start(0)] or [el.play()]. *)
Definition is_playback_start (e : Event) : bool :=
  match e with
  | SourceStart _ | Play => true
  | _ => false
  end.

(** No playback begins in a trace. *)
Definition quiet (l : list Event) : Prop :=
  forall e, In e l -> is_playback_start e = false.

(** Every beginning of playback in a trace comes after [a]. *)
Definition before_playback (a : Event) (l : list Event) : Prop :=
  forall l1 e l2, l = l1 ++ e :: l2 -> is_playback_start e = true -> In a l1.

Definition is_capture_request (e : Event) : bool :=
  match e with GetUserMedia => true | _ => false end.

(** How many times the microphone was asked for. *)
Definition capture_requests (w : World) : nat :=
  List.length (filter is_capture_request (log (host w))).

(** The browser that rejects capture with [e] and grants the rest. *)
Definition refusing (e : JsError) : Oracle :=
  fun h _ => match h with CallGetUserMedia => Rejected e | _ => Resolved end.

Definition grants_capture (o : Oracle) : Prop :=
  forall i, o CallGetUserMedia i = Resolved.

Definition rejects_capture (e : JsError) (o : Oracle) : Prop :=
  forall i, o CallGetUserMedia i = Rejected e.


(** A stop leaves the mode alone, or takes it from [kind] to [idle]. *)
Definition mode_frame (kind m m' : Mode) : Prop :=
  (m' = m \/ (m = kind /\ m' = idle)) /\ (m <> kind -> m' = m).

(** What [stopMic] logs before it stops the tracks. *)
Definition stop_prefix (w : World) : list Event :=
  match rafIdRef (refs w) with Some r => [CancelFrame r] | None => [] end ++
  match micSourceRef (refs w) with Some a => [Disconnect a] | None => [] end.

(** The <audio> element, if any, is paused at the start with no handler. *)
Definition element_at_rest (w : World) : Prop :=
  forall el, audioElRef (refs w) = Some el ->
    onended el = false /\ paused el = true /\ currentTime el = 0%Q.

(** What [stopMic] of V2 and V4 leaves: the microphone graph and the
    pipeline are unreferenced, the loop is cancelled, the canvas is
    blank. *)
Definition mic_stopped (w : World) : Prop :=
  rafIdRef (refs w) = None /\ audioCtxRef (refs w) = None /\
  analyserRef (refs w) = None /\ dataArrayRef (refs w) = None /\
  micSourceRef (refs w) = None /\ micStreamRef (refs w) = None /\
  isMicOn (ui w) = false /\ mode (ui w) <> mic /\ blanked w.

(** What [stopFilePlayback] of V2 leaves. *)
Definition file_stopped (w : World) : Prop :=
  rafIdRef (refs w) = None /\ audioCtxRef (refs w) = None /\
  analyserRef (refs w) = None /\ dataArrayRef (refs w) = None /\
  fileSourceRef (refs w) = None /\
  isFilePlaying (ui w) = false /\ fileName (ui w) = None /\
  mode (ui w) <> file /\ blanked w.

(** What [stopPresetPlayback] of V4 leaves. *)
Definition preset_stopped (w : World) : Prop :=
  rafIdRef (refs w) = None /\ audioCtxRef (refs w) = None /\
  analyserRef (refs w) = None /\ dataArrayRef (refs w) = None /\
  mediaElSourceRef (refs w) = None /\
  isFilePlaying (ui w) = false /\ currentTrackId (ui w) = None /\
  mode (ui w) <> file /\ blanked w /\ element_at_rest w.

(** ** Weakest preconditions

    [wpg aw p Q w]: a run of [p] from [w] ends in a result and a world that
    satisfy [Q]; [aw] says what holds across an [await], whose continuation
    it receives as a predicate on the reply and on the world in which the
    run resumes. *)

Definition AwaitRule :=
  HostCall -> World -> (Reply -> World -> Prop) -> Prop.

Fixpoint wpg {A} (aw : AwaitRule) (p : Async A)
  (Q : Result A -> World -> Prop) (w : World) : Prop :=
  match p with
  | Ret a => Q (Ok a) w
  | Throw e => Q (Err e) w
  | Upd f k => wpg aw k Q (f w)
  | Rd k => wpg aw (k w) Q w
  | Await h k => aw h w (fun r u => wpg aw (k r) Q u)
  end.

Definition monotone (aw : AwaitRule) : Prop :=
  forall h w (K K' : Reply -> World -> Prop),
    (forall r u, K r u -> K' r u) -> aw h w K -> aw h w K'.

(** Nothing is interleaved, and the browser answers as [ok] allows. *)
Definition answers (ok : HostCall -> Reply -> Prop) : AwaitRule :=
  fun h w K => forall r, ok h r -> K r w.

Definition any_reply : HostCall -> Reply -> Prop := fun _ _ => True.

(** Capture is granted; every other request may go either way. *)
Definition granted : HostCall -> Reply -> Prop :=
  fun h r => match h with CallGetUserMedia => r = Resolved | _ => True end.

(** Capture is rejected with [e]. *)
Definition denied (e : JsError) : HostCall -> Reply -> Prop :=
  fun h r => match h with CallGetUserMedia => r = Rejected e | _ => True end.

Definition wp {A} := @wpg A (answers any_reply).

(** Others run during an [await]: [I] holds when the run starts to wait,
    and it resumes in any world of [I] that [R] relates to the one it
    left. *)
Definition relying (I : World -> Prop) (R : World -> World -> Prop)
  : AwaitRule :=
  fun h w K => I w /\ forall r u, I u -> R w u -> K r u.

(** ** Effects

    [steps_in G p]: every update [p] can make, in whatever world, is a step
    of [G]. *)
Fixpoint steps_in (G : World -> World -> Prop) {A} (p : Async A) : Prop :=
  match p with
  | Ret _ | Throw _ => True
  | Upd f k => (forall w, G w (f w)) /\ steps_in G k
  | Rd k => forall w, steps_in G (k w)
  | Await _ k => forall r, steps_in G (k r)
  end.

(** The run allocates nothing. *)
Definition same_ids (w w' : World) : Prop :=
  nextId (host w') = nextId (host w).

(** The run only adds to the trace, and starts and stops no stream. *)
Definition appends (w w' : World) : Prop :=
  (exists new, log (host w') = log (host w) ++ new) /\
  liveStreams (host w') = liveStreams (host w).

(** ** Concrete inputs *)

(** A canvas laid out at 333 x 360 CSS pixels. *)
Definition canvas333 : Canvas :=
  {| rectW := 333; rectH := 360; has2d := true;
     width := 300; height := 150; pixels := Untouched |}.


Definition song : File := {| name := "song.mp3" |}.
Definition track1 : Track :=
  {| id := "t1"; title := "Cascade Breathe"; artist := Some "NverAvetyanMusic";
     url := "/audio/cascade-breathe.mp3" |}%string.

(** The browser that grants everything. *)
Definition resolving : Oracle := fun _ _ => Resolved.

(** V2 with the microphone running. *)
Definition mic_on : World :=
  after V2.startMic resolving (init (Some canvas333) 1).

(** A rejection that carries no message, and one whose message is empty. *)
Definition no_message : JsError := {| message := None |}.
Definition empty_message : JsError := {| message := Some EmptyString |}.

(** V2 playing an uploaded file: source node 2, hooked. *)
Definition file_on : Loop :=
  run V2Loop.component
    [Invoke (V2Loop.StartFile song); Settle 0 Resolved; Settle 0 Resolved]
    (start (init (Some canvas333) 1)).

(** The user stops the file and turns the microphone on; then the [ended]
    event of the stopped source is delivered. *)
Definition stop_then_ended : list (Input V2Loop.Op) :=
  [Invoke V2Loop.StopFile; Settle 0 Resolved; Settle 0 Resolved;
   Invoke V2Loop.StartMic; Settle 0 Resolved;
   SourceEnded 2; Settle 0 Resolved; Settle 0 Resolved].

(** V3 right after its mount effect: [startMic] waits for the microphone,
    [busy] is set. *)
Definition mounted : Loop :=
  run V3Loop.component [Invoke V3Loop.Mount] (start (init (Some canvas333) 1)).

(** A second [startMic] while the first one waits; then both are granted. *)
Definition startMic_twice : list (Input V3Loop.Op) :=
  [Invoke V3Loop.StartMic; Settle 0 Resolved; Settle 0 Resolved].




(** ** Effects of the synchronous helpers

    What the helpers that never wait and never throw do to the world,
    written field by field.  The lemmas [advance_*] below tie each of them
    to the helper it describes. *)

Definition stopRenderLoop_fx (w : World) : World :=
  {| refs := set_rafIdRef None (refs w);
     ui := ui w;
     host :=
       set_log (log (host w) ++
                match rafIdRef (refs w) with
                | Some r => [CancelFrame r]
                | None => []
                end)
         (set_frames
            (match rafIdRef (refs w) with
             | Some r => remove Nat.eq_dec r (frames (host w))
             | None => frames (host w)
             end) (host w)) |}.

Definition clearCanvas_events (c : option Canvas) : list Event :=
  match c with
  | Some canvas =>
      if has2d canvas then
        [ClearRect (width canvas) (height canvas); FillStyle black;
         FillRect 0 0 (inject_Z (width canvas)) (inject_Z (height canvas))]
      else []
  | None => []
  end.

Definition clearCanvas_fx (w : World) : World :=
  {| refs :=
       set_canvasRef
         (match canvasRef (refs w) with
          | Some canvas =>
              Some (if has2d canvas then paint Black canvas else canvas)
          | None => None
          end) (refs w);
     ui := ui w;
     host := set_log (log (host w) ++ clearCanvas_events (canvasRef (refs w)))
               (host w) |}.

Definition fitCanvas_fx (w : World) : World :=
  {| refs :=
       set_canvasRef
         (option_map (fit (devicePixelRatio (host w))) (canvasRef (refs w)))
         (refs w);
     ui := ui w;
     host :=
       set_log (log (host w) ++
                match canvasRef (refs w) with
                | Some canvas =>
                    [Resize (width (fit (devicePixelRatio (host w)) canvas))
                            (height (fit (devicePixelRatio (host w)) canvas))]
                | None => []
                end) (host w) |}.

(** [draw] passes its guards. *)
Definition draw_ready (w : World) : bool :=
  match canvasRef (refs w), analyserRef (refs w), dataArrayRef (refs w) with
  | Some canvas, Some _, Some _ => has2d canvas
  | _, _, _ => false
  end.

Definition draw_events (w : World) : list Event :=
  match canvasRef (refs w), dataArrayRef (refs w) with
  | Some canvas, Some dataArray =>
      let data := overwrite (signal (host w)) (bytes dataArray) in
      let n := List.length data in
      RequestFrame (nextId (host w)) :: GetByteFrequencyData ::
      FillStyle fade ::
      FillRect 0 0 (inject_Z (width canvas)) (inject_Z (height canvas)) ::
      flat_map bar_events
        (bars n (height canvas)
           (Qred (inject_Z (width canvas) / natQ n * (22 # 10))) 0 0 data)
  | _, _ => []
  end.

Definition draw_fx (w : World) : World :=
  let ready := draw_ready w in
  {| refs :=
       set_canvasRef
         (if ready then option_map (paint Spectrum) (canvasRef (refs w))
          else canvasRef (refs w))
         (set_dataArrayRef
            (if ready then
               option_map (fun d =>
                 {| buf := buf d;
                    bytes := overwrite (signal (host w)) (bytes d) |})
                 (dataArrayRef (refs w))
             else dataArrayRef (refs w))
            (set_rafIdRef
               (if ready then Some (nextId (host w)) else rafIdRef (refs w))
               (refs w)));
     ui := ui w;
     host :=
       set_log (log (host w) ++ (if ready then draw_events w else []))
         (set_frames
            (frames (host w) ++ (if ready then [nextId (host w)] else []))
            (set_nextId
               (if ready then S (nextId (host w)) else nextId (host w))
               (host w))) |}.

Definition disconnect_fx (a : option nat) (w : World) : World :=
  upd_host (fun h =>
    set_log (log h ++ match a with Some a => [Disconnect a] | None => [] end)
      (set_edges (unlink_opt a (edges h)) h)) w.

Definition stopTracks_fx (s : option nat) (w : World) : World :=
  upd_host (fun h =>
    set_log (log h ++ match s with Some s => [TrackStop s] | None => [] end)
      (set_liveStreams
         (match s with
          | Some s => remove Nat.eq_dec s (liveStreams h)
          | None => liveStreams h
          end) h)) w.
(** ** Outcomes of a start *)

(** A failed capture, as [startMic] leaves it. *)
Definition capture_failed (fallback : string) (e : JsError) (w w' : World)
  : Prop :=
  isMicOn (ui w') = false /\
  error (ui w') = Some (message_or e fallback) /\
  blanked w' /\
  capture_requests w' = S (capture_requests w) /\
  micStreamRef (refs w') = micStreamRef (refs w).

Definition mic_fallback : string :=
  "Microphone permission denied or unavailable.".

(** A fresh frequency buffer of 128 bins, as a successful [startMic]
    leaves it. *)
Definition fresh_buffer (w w' : World) : Prop :=
  exists a b,
    analyserRef (refs w') = Some a /\ fftSize a = 256 /\
    frequencyBinCount a = 128 /\
    dataArrayRef (refs w') = Some b /\ List.length (bytes b) = 128 /\
    nextId (host w) <= buf b /\ buf b < nextId (host w').


(** What a start leaves when capture was refused with [e]: the flag is
    down, the canvas blank, the message of [e] or the fallback is shown,
    and the microphone was asked for exactly once. *)
Definition recovered (e : JsError) (w w' : World) : Prop :=
  isMicOn (ui w') = false /\ blanked w' /\
  error (ui w') = Some (message_or e mic_fallback) /\
  (message e <> Some EmptyString -> error (ui w') <> Some EmptyString) /\
  capture_requests w' = S (capture_requests w).

(** Start, stop, start again: each start leaves a buffer of 128 bins for an
    analyser of window 256, the stop leaves none, and the second buffer is
    not the first. *)
Definition round_trip (w a b c : World) : Prop :=
  fresh_buffer w a /\ dataArrayRef (refs b) = None /\ fresh_buffer b c /\
  exists b1 b2, dataArrayRef (refs a) = Some b1 /\
                dataArrayRef (refs c) = Some b2 /\ buf b1 < buf b2.

(** Since the trace was [l0], [a] was logged, and no playback began before
    it. *)
Definition stopped_first (a : Event) (l0 l : list Event) : Prop :=
  exists new, l = l0 ++ new /\ In a new /\ before_playback a new.

(** The hardware tracks of [s] were stopped before any playback began, and
    [s] is no longer live. *)
Definition released_before_playback (s : nat) (w w' : World) : Prop :=
  stopped_first (TrackStop s) (log (host w)) (log (host w')) /\
  ~ In s (liveStreams (host w')).



(** ** The invariant of the pipeline *)

(** While a run waits with no frame callback scheduled, nothing else runs:
    it resumes in the world it left. *)
Definition stays (w u : World) : Prop := frames (host w) = [] -> u = w.


(** Every connection is between nodes that exist. *)
Definition bounded (n : nat) (es : list (nat * nat)) : Prop :=
  forall e, In e es -> fst e < n /\ snd e < n.








(** ** Further notions *)

(** How many times playback was begun. *)
Definition playbacks (w : World) : nat :=
  List.length (filter is_playback_start (log (host w))).

(** The requests [teardownContext] makes of the context it finds. *)
Definition teardown_requests (c : option nat) : list Event :=
  match c with Some c => [Suspend c; Close c] | None => [] end.

(** The shared pipeline is unreferenced. *)
Definition pipeline_released (w : World) : Prop :=
  audioCtxRef (refs w) = None /\ analyserRef (refs w) = None /\
  dataArrayRef (refs w) = None.

(** Since the trace was [l0], the hook of the <audio> element was taken
    off and the element paused right after. *)
Definition unhooked_then_paused (l0 l : list Event) : Prop :=
  exists pre post, l = l0 ++ pre ++ Onended false :: Pause :: post.

(** What an end-of-track handler of V2 or V4 leaves: the loop cancelled,
    the pipeline unreferenced, the canvas blank, playback flagged off, and
    the mode taken from [file] to [idle]. *)
Definition ended (w w' : World) : Prop :=
  rafIdRef (refs w') = None /\ pipeline_released w' /\ blanked w' /\
  isFilePlaying (ui w') = false /\ mode (ui w') = leave file (mode (ui w)).

(** [el.play()] resolves; [el.play()] rejects with [e]. *)
Definition played : HostCall -> Reply -> Prop :=
  fun h r => match h with CallPlay => r = Resolved | _ => True end.

Definition play_failed (e : JsError) : HostCall -> Reply -> Prop :=
  fun h r => match h with CallPlay => r = Rejected e | _ => True end.

Definition plays (o : Oracle) : Prop := forall i, o CallPlay i = Resolved.

Definition fails_to_play (e : JsError) (o : Oracle) : Prop :=
  forall i, o CallPlay i = Rejected e.

(** [draw] would pass its guards: there is a canvas with a 2d context, an
    analyser and a buffer. *)
Definition can_draw (w : World) : Prop :=
  (exists c, canvasRef (refs w) = Some c /\ has2d c = true) /\
  analyserRef (refs w) <> None /\ dataArrayRef (refs w) <> None.

(** A frame callback is scheduled, the one [rafIdRef] names. *)
Definition loop_running (w : World) : Prop :=
  exists r, rafIdRef (refs w) = Some r /\ In r (frames (host w)).

(** V3 after its mount effect, with the microphone granted or refused. *)
Definition mic_live3 : World :=
  world (run V3Loop.component [Settle 0 Resolved] mounted).

Definition mic_refused3 : World :=
  world (run V3Loop.component [Settle 0 (Rejected no_message)] mounted).

Definition play_error : JsError :=
  {| message := Some "NotSupportedError"%string |}.

(** The browser that rejects [play()] with [e] and grants the rest. *)
Definition failing_play (e : JsError) : Oracle :=
  fun h _ => match h with CallPlay => Rejected e | _ => Resolved end.

(** The <audio> element already feeds a media source node. *)
Definition element_attached (w : World) : Prop :=
  exists el, audioElRef (refs w) = Some el /\ attached el = true.


(** There is a canvas to paint on. *)
Definition paintable (w : World) : Prop :=
  exists c, canvasRef (refs w) = Some c /\ has2d c = true.

(** What a successful start of a preset leaves in V4: a new context with
    its analyser, the element's source connected to the analyser and the
    analyser to the destination, the hook on, one playback begun. *)
Definition preset_playing (t : Track) (w w' : World) : Prop :=
  mode (ui w') = file /\ isFilePlaying (ui w') = true /\
  currentTrackId (ui w') = Some (id t) /\ error (ui w') = None /\
  playbacks w' = S (playbacks w) /\
  (exists el, audioElRef (refs w') = Some el /\ src el = url t /\
              onended el = true /\ attached el = true) /\
  (exists c a s, audioCtxRef (refs w') = Some c /\
                 analyserRef (refs w') = Some a /\
                 mediaElSourceRef (refs w') = Some s /\
                 In (s, node a) (edges (host w')) /\
                 In (node a, destination c) (edges (host w'))) /\
  (paintable w -> loop_running w').

(** What a start of a preset leaves in V4 when [play()] rejects with [e]:
    the message is shown and nothing is flagged as playing, but the
    context stays referenced and the render loop scheduled. *)
Definition preset_failed (e : JsError) (w w' : World) : Prop :=
  mode (ui w') = idle /\ isFilePlaying (ui w') = false /\
  error (ui w') = Some (message_or e "Failed to play track.") /\
  mediaElSourceRef (refs w') = None /\
  audioCtxRef (refs w') <> None /\ analyserRef (refs w') <> None /\
  (paintable w -> loop_running w').

(** The uploaded file is read and decoded; it is read but cannot be
    decoded; it cannot be read. *)
Definition decoded : HostCall -> Reply -> Prop :=
  fun h r => match h with
             | CallArrayBuffer | CallDecode => r = Resolved
             | _ => True
             end.

Definition undecodable (e : JsError) : HostCall -> Reply -> Prop :=
  fun h r => match h with
             | CallArrayBuffer => r = Resolved
             | CallDecode => r = Rejected e
             | _ => True
             end.

Definition unreadable (e : JsError) : HostCall -> Reply -> Prop :=
  fun h r => match h with CallArrayBuffer => r = Rejected e | _ => True end.

Definition follows (ok : HostCall -> Reply -> Prop) (o : Oracle) : Prop :=
  forall h i, ok h (o h i).

Definition failing_decode (e : JsError) : Oracle :=
  fun h _ => match h with CallDecode => Rejected e | _ => Resolved end.

Definition failing_read (e : JsError) : Oracle :=
  fun h _ => match h with CallArrayBuffer => Rejected e | _ => Resolved end.

Definition decode_error : JsError :=
  {| message := Some "Unable to decode audio data"%string |}.

(** What a successful [startFilePlayback] leaves in V2. *)
Definition file_playing (f : File) (w w' : World) : Prop :=
  mode (ui w') = file /\ isFilePlaying (ui w') = true /\
  fileName (ui w') = Some (name f) /\ error (ui w') = None /\
  playbacks w' = S (playbacks w) /\
  micStreamRef (refs w') = None /\ micSourceRef (refs w') = None /\
  (exists c a s, audioCtxRef (refs w') = Some c /\
                 analyserRef (refs w') = Some a /\
                 fileSourceRef (refs w') = Some s /\
                 In (s, node a) (edges (host w')) /\
                 In (node a, destination c) (edges (host w')) /\
                 In s (liveSources (host w')) /\ In s (hooked (host w'))) /\
  (paintable w -> loop_running w').

(** What a failed [startFilePlayback] leaves in V2. *)
Definition file_failed (e : JsError) (w w' : World) : Prop :=
  mode (ui w') = idle /\ isFilePlaying (ui w') = false /\
  error (ui w') =
    Some (message_or e "Failed to play the selected audio file.") /\
  fileName (ui w') = fileName (ui w) /\
  fileSourceRef (refs w') = None /\ rafIdRef (refs w') = None /\
  micStreamRef (refs w') = None /\
  playbacks w' = playbacks w /\ blanked w'.

(** How many times the tracks of stream [s] were stopped. *)
Definition is_stop_of (s : nat) (e : Event) : bool :=
  match e with TrackStop x => x =? s | _ => false end.

Definition stops_of (s : nat) (w : World) : nat :=
  List.length (filter (is_stop_of s) (log (host w))).

(** The stream [s] is capturing, and the component no longer refers to it:
    nothing it can still call will stop it. *)
Definition orphaned (s : nat) (w : World) : Prop :=
  In s (liveStreams (host w)) /\ micStreamRef (refs w) <> Some s.

(** A start that found the stream [s] held and live: [s] is never stopped,
    and a second stream is capturing beside it. *)
Definition doubled (s : nat) (w w' : World) : Prop :=
  orphaned s w' /\ stops_of s w' = stops_of s w /\
  exists s', micStreamRef (refs w') = Some s' /\ s' <> s /\
             In s' (liveStreams (host w')).

(** The cleanup of the mount effect in V2 and V4: three calls in a row,
    none awaited.  Each runs up to its first [await]; what is left of it
    waits with the other suspended runs. *)
Definition call_unawaited (p : Async unit) (l : Loop) : Loop :=
  spawn CallTask p (world l) (tasks l).

Definition cleanup2 (l : Loop) : Loop :=
  call_unawaited V2.stopMic
    (call_unawaited V2.stopFilePlayback (call_unawaited stopRenderLoop l)).

Definition cleanup4 (l : Loop) : Loop :=
  call_unawaited V4.stopMic
    (call_unawaited V4.stopPresetPlayback (call_unawaited stopRenderLoop l)).




(** A run that waits for nothing. *)
Definition never : AwaitRule := fun _ _ _ => False.





(** Where the microphone goes.  [monitored]: its source feeds the
    analyser and the analyser feeds the context's destination, the
    speakers.  [analysed_only]: its source feeds the analyser, and the
    analyser feeds nothing. *)
Definition monitored (w : World) : Prop :=
  exists s a c,
    micSourceRef (refs w) = Some s /\ analyserRef (refs w) = Some a /\
    audioCtxRef (refs w) = Some c /\
    In (s, node a) (edges (host w)) /\
    In (node a, destination c) (edges (host w)).

Definition analysed_only (w : World) : Prop :=
  exists s a,
    micSourceRef (refs w) = Some s /\ analyserRef (refs w) = Some a /\
    In (s, node a) (edges (host w)) /\
    forall y, ~ In (node a, y) (edges (host w)).

(** The connections are between nodes that exist. *)
Definition well_wired (w : World) : Prop :=
  bounded (nextId (host w)) (edges (host w)).

(** ** The resize listener: the first effect of each revision

    [window]'s listeners for [resize], each known by the identity of its
    function object, and the next identity.  Evaluating an arrow function
    makes a new object; [addEventListener] does not add a function that is
    already registered, and [removeEventListener] removes the function it
    is given, if it is registered. *)

Record Window := { listeners : list nat; nextFn : nat }.

Definition Page : Type := World * Window.

Definition arrow (win : Window) : nat * Window :=
  (nextFn win, {| listeners := listeners win; nextFn := S (nextFn win) |}).

Definition addEventListener (f : nat) (win : Window) : Window :=
  {| listeners := if existsb (Nat.eqb f) (listeners win)
                  then listeners win else listeners win ++ [f];
     nextFn := nextFn win |}.

Definition removeEventListener (f : nat) (win : Window) : Window :=
  {| listeners := remove Nat.eq_dec f (listeners win);
     nextFn := nextFn win |}.

(** [fitCanvas(); clearCanvas();], the body of every resize listener. *)
Definition onResize : Async unit := fitCanvas ;; clearCanvas.

Definition now (p : Async unit) (w : World) : World := snd (advance p w).

(** V1 (AudioVisualizer.tsx): the listener is an arrow written in place,
    and the cleanup hands [removeEventListener] another arrow. *)
Definition resize_effect1 (p : Page) : Page * (Page -> Page) :=
  let w := now onResize (fst p) in
  let (f, win) := arrow (snd p) in
  ((w, addEventListener f win),
   fun q => let (g, win') := arrow (snd q) in
            (fst q, removeEventListener g win')).

(** V2, V3 and V4: the listener is the constant [onResize]. *)
Definition resize_effect2 (p : Page) : Page * (Page -> Page) :=
  let (f, win) := arrow (snd p) in
  let w := now onResize (fst p) in
  ((w, addEventListener f win),
   fun q => (fst q, removeEventListener f (snd q))).

(** Mount and unmount, once for each world of [ws]: every mount is a new
    instance of the component, with its own refs and state; the window
    is the same. *)
Fixpoint remount (effect : Page -> Page * (Page -> Page)) (ws : list World)
  (win : Window) : Window :=
  match ws with
  | [] => win
  | w :: ws' =>
      let (q, cleanup) := effect (w, win) in
      remount effect ws' (snd (cleanup q))
  end.

(** The registered functions are functions that exist. *)
Definition registered_exist (win : Window) : Prop :=
  Forall (fun f => f < nextFn win) (listeners win).

(** ** The presets route: src/unnamed/part_001 *)

Module Presets.

#[local] Unset Elimination Schemes.
Inductive Json :=
| JNull | JBool (b : bool) | JNumber (q : Q) | JString (s : string)
| JArray (items : list Json) | JObject (fields : list (string * Json)).
#[local] Set Elimination Schemes.

(** [let presets: any[] = [];] *)
Definition Store : Type := list Json.
Definition presets0 : Store := [].

(** [GET]: the array as it is. *)
Definition GET (presets : Store) : Json * Store := (JArray presets, presets).

(** [POST]: [request.json()] resolves with the parsed body or rejects;
    a rejection leaves the handler before the [push]. *)
Definition POST (request : Result Json) (presets : Store)
  : Result Json * Store :=
  match request with
  | Ok data =>
      (Ok (JObject [("success"%string, JBool true); ("data"%string, data)]),
       presets ++ [data])
  | Err e => (Err e, presets)
  end.

Inductive Request := Get | Post (body : Result Json).

Definition handle (r : Request) (presets : Store) : Result Json * Store :=
  match r with
  | Get => let (out, s) := GET presets in (Ok out, s)
  | Post body => POST body presets
  end.

(** The requests of one server process, in order. *)
Fixpoint serve (rs : list Request) (presets : Store)
  : list (Result Json) * Store :=
  match rs with
  | [] => ([], presets)
  | r :: rs' =>
      let (out, s) := handle r presets in
      let (outs, s') := serve rs' s in
      (out :: outs, s')
  end.

(** The bodies that parsed, in order. *)
Definition posted (rs : list Request) : list Json :=
  flat_map (fun r => match r with Post (Ok data) => [data] | _ => [] end) rs.

End Presets.

(** ** Any schedule

    Every suspended run of [l] makes only steps of [G]. *)
Definition steps_only (G : World -> World -> Prop) (l : Loop) : Prop :=
  Forall (fun t => forall r, steps_in G (resume t r)) (tasks l).

(** Requests that make, suspend or close an audio context. *)
Definition is_context_event (e : Event) : bool :=
  match e with
  | NewContext _ | Suspend _ | Close _ => true
  | _ => false
  end.

Definition context_events (w : World) : list Event :=
  filter is_context_event (log (host w)).

(** The context, the analyser and the media source are the ones they
    were, and no context was made, suspended or closed. *)
Definition one_context (w w' : World) : Prop :=
  audioCtxRef (refs w') = audioCtxRef (refs w) /\
  analyserRef (refs w') = analyserRef (refs w) /\
  mediaElSourceRef (refs w') = mediaElSourceRef (refs w) /\
  context_events w' = context_events w.

(** Anything but a second mount. *)
Definition after_mount (i : Input V3Loop.Op) : Prop :=
  match i with Invoke V3Loop.Mount => False | _ => True end.

(** ** The cleanup of V3's mount effect

    [audioElRef.current.load()] with an empty [src]: the element is
    paused and rewound. *)
Definition el_load : Async unit :=
  set_el (fun el => {| src := src el; paused := true;
                       currentTime := 0; muted := muted el;
                       onended := onended el; attached := attached el |}).

(** Up to the closing of the context. *)
Definition cleanup3_release : Async unit :=
  stopRenderLoop ;;
  ignoring (opt micSourceRef disconnect) ;;
  store set_micSourceRef None ;;
  ignoring (opt micStreamRef stopTracks) ;;
  store set_micStreamRef None ;;
  opt audioElRef (fun _ =>
    ignoring el_pause ;;
    ignoring (el_src EmptyString ;; el_load)) ;;
  ignoring (opt mediaElSourceRef disconnect) ;;
  store set_mediaElSourceRef None.

(** [(async () => { ... })()], on the context [ctx] the effect made. *)
Definition cleanup3_close (ctx : nat) : Async unit :=
  ignoring (suspend ctx) ;;
  ignoring (close ctx).

Definition cleanup3_forget : Async unit :=
  store set_audioCtxRef None ;;
  store set_analyserRef None ;;
  store set_dataArrayRef None.

(** The closing is called and not awaited: the references are cleared
    while it waits for [suspend()]. *)
Definition cleanup3 (ctx : nat) (l : Loop) : Loop :=
  call_unawaited cleanup3_forget
    (call_unawaited (cleanup3_close ctx)
       (call_unawaited cleanup3_release l)).

(** The granted stream is held and capturing, none of its tracks was
    stopped, and the run ended in its [catch]: no source was made for the
    stream, and the message of the TypeError is shown. *)
Definition leaked (u u' : World) : Prop :=
  exists s,
    micStreamRef (refs u') = Some s /\ In s (liveStreams (host u')) /\
    stops_of s u' = stops_of s u /\
    micSourceRef (refs u') = micSourceRef (refs u) /\
    audioCtxRef (refs u') = None /\
    mode (ui u') = idle /\ isMicOn (ui u') = false /\
    busy (ui u') = false /\
    error (ui u') = message TypeError.

(** Two runs wait: the request for the microphone, and the closing of
    the context. *)
Definition asking_and_closing (ctx : nat) (l : Loop) : Prop :=
  exists t t', tasks l = [t; t'] /\ awaiting t = CallGetUserMedia /\
               awaiting t' = CallSuspend ctx.

(** ** Unmounting with the microphone on

    [waits_at P]: the run stops at an [await], in a world and for a
    request that [P] describes. *)
Definition waits_at (P : HostCall -> World -> Prop) : AwaitRule :=
  fun h w _ => P h w.

(** The first stop of the cleanup waits for [suspend()] of the context
    [c], holding the stream [ms], the streams [ls] capturing. *)
Definition holding (c : nat) (ms : option nat) (ls : list nat)
  : HostCall -> World -> Prop :=
  fun h u =>
    h = CallSuspend c /\ audioCtxRef (refs u) = Some c /\
    micStreamRef (refs u) = ms /\ liveStreams (host u) = ls.

(** [stopMic] waits for [suspend()] of [c] too, the stream [s] stopped
    and unreferenced, the loop cancelled. *)
Definition mic_released_at (c s : nat) : HostCall -> World -> Prop :=
  fun h v =>
    h = CallSuspend c /\ micStreamRef (refs v) = None /\
    ~ In s (liveStreams (host v)) /\ rafIdRef (refs v) = None.

(** What the cleanup has done when it returns: two more runs wait, both
    for [suspend()] of [c]; the stream [s] is stopped and unreferenced,
    and the loop is cancelled. *)
Definition released_at_once (c s : nat) (ts : list Task) (l : Loop)
  : Prop :=
  (exists t t', tasks l = ts ++ [t; t'] /\ awaiting t = CallSuspend c /\
                awaiting t' = CallSuspend c) /\
  micStreamRef (refs (world l)) = None /\
  ~ In s (liveStreams (host (world l))) /\
  rafIdRef (refs (world l)) = None.

(** * Proofs *)

(** ** The monad and its logic *)

Lemma wpg_mono {A} aw (p : Async A) (Q Q' : Result A -> World -> Prop) w :
  monotone aw ->
  (forall r u, Q r u -> Q' r u) -> wpg aw p Q w -> wpg aw p Q' w.
Proof.
  intros Haw HQ. revert w.
  induction p as [a|e|f k IH|k IH|h k IH]; cbn; intros w Hw; auto.
  eapply Haw; [|exact Hw]. cbn. intros r u. apply IH.
Qed.

Lemma wpg_bind {A B} aw (p : Async A) (f : A -> Async B) Q w :
  monotone aw ->
  wpg aw p (fun r u => match r with
                       | Ok a => wpg aw (f a) Q u
                       | Err e => Q (Err e) u
                       end) w ->
  wpg aw (bind p f) Q w.
Proof.
  intros Haw. revert w.
  induction p as [a|e|g k IH|k IH|h k IH]; cbn; intros w Hw; auto.
  eapply Haw; [|exact Hw]. cbn. intros r u. apply IH.
Qed.

Lemma wpg_try_catch {A} aw (p : Async A) (h : JsError -> Async A) Q w :
  monotone aw ->
  wpg aw p (fun r u => match r with
                       | Ok a => Q (Ok a) u
                       | Err e => wpg aw (h e) Q u
                       end) w ->
  wpg aw (try_catch p h) Q w.
Proof.
  intros Haw. revert w.
  induction p as [a|e|g k IH|k IH|c k IH]; cbn; intros w Hw; auto.
  eapply Haw; [|exact Hw]. cbn. intros r u. apply IH.
Qed.

Lemma answers_monotone ok : monotone (answers ok).
Proof. intros h w K K' HK H r Hr. apply HK, H, Hr. Qed.

(** A proof by [wpg] speaks of every run the oracle can drive. *)
Lemma wpg_exec {A} ok (p : Async A) Q w :
  wpg (answers ok) p Q w ->
  forall o, (forall h i, ok h (o h i)) ->
  forall i, Q (fst (exec p o i w)) (snd (exec p o i w)).
Proof.
  revert w. induction p as [a|e|f k IH|k IH|h k IH]; cbn; intros w Hw o Ho i;
    auto.
  all: try (apply IH; [|exact Ho]; apply Hw, Ho).
Qed.

Lemma wp_after {A} (p : Async A) (Q : Result A -> World -> Prop) w :
  wp p Q w -> forall o, Q (outcome p o w) (after p o w).
Proof.
  intros H o. refine (wpg_exec any_reply p _ w H o _ 0). intros; exact I.
Qed.

(** ** Canvas *)


(** ** Render loop *)



Lemma byteQ_range v : (0 <= byteQ v)%Q /\ (byteQ v <= 255)%Q.
Proof.
  unfold byteQ. split.
  - change 0%Q with (inject_Z 0). rewrite <- Zle_Qle. lia.
  - change 255%Q with (inject_Z 255). rewrite <- Zle_Qle.
    pose proof (Byte.to_N_bounded v) as Hb. lia.
Qed.

Lemma overwrite_length sig : forall arr,
  List.length (overwrite sig arr) = List.length arr.
Proof.
  induction sig as [|s sig IH]; intros [|a arr]; cbn; auto.
Qed.

Lemma remove_one (r : nat) : remove Nat.eq_dec r [r] = [].
Proof. cbn. destruct (Nat.eq_dec r r); [reflexivity|contradiction]. Qed.

Lemma cancel_nil (raf : option nat) :
  match raf with
  | Some r => remove Nat.eq_dec r []
  | None => []
  end = [].
Proof. destruct raf; reflexivity. Qed.



(** With the canvas, the analyser or the buffer missing, [draw] returns at
    once: nothing is scheduled, sampled or painted. *)
Lemma draw_idle w o :
  canvasRef (refs w) = None \/ analyserRef (refs w) = None \/
  dataArrayRef (refs w) = None ->
  after draw o w = w.
Proof.
  intros H. unfold after, draw. cbn [exec].
  destruct (canvasRef (refs w)), (analyserRef (refs w)),
    (dataArrayRef (refs w)); try reflexivity;
    destruct H as [H|[H|H]]; discriminate.
Qed.




Lemma bar_height_range v H : (0 <= H)%Z ->
  (0 <= byteQ v / 255 * (inject_Z H * (9 # 10)))%Q /\
  (byteQ v / 255 * (inject_Z H * (9 # 10)) <= inject_Z H * (9 # 10))%Q.
Proof.
  intro HH. destruct (byteQ_range v) as [H0 H255].
  assert (HQ : (0 <= inject_Z H * (9 # 10))%Q).
  { apply Qmult_le_0_compat; [|discriminate].
    change 0%Q with (inject_Z 0). rewrite <- Zle_Qle. exact HH. }
  assert (Hf0 : (0 <= byteQ v / 255)%Q).
  { apply Qle_shift_div_l; [reflexivity|]. rewrite Qmult_0_l. exact H0. }
  assert (Hf1 : (byteQ v / 255 <= 1)%Q).
  { apply Qle_shift_div_r; [reflexivity|]. rewrite Qmult_1_l. exact H255. }
  split.
  - apply Qmult_le_0_compat; assumption.
  - setoid_replace (inject_Z H * (9 # 10))%Q
      with (1 * (inject_Z H * (9 # 10)))%Q at 2 by (symmetry; apply Qmult_1_l).
    apply Qmult_le_compat_r; assumption.
Qed.

(** ** Runs, segment by segment *)

Lemma advance_bind {A B} (p : Async A) (f : A -> Async B) w :
  advance (bind p f) w =
  match advance p w with
  | (Finished (Ok a), w') => advance (f a) w'
  | (Finished (Err e), w') => (Finished (Err e), w')
  | (Pending h k, w') => (Pending h (fun r => bind (k r) f), w')
  end.
Proof.
  revert w. induction p as [a|e|g k IH|k IH|h k IH]; cbn; intros w; auto.
Qed.

Lemma advance_try_catch {A} (p : Async A) (h : JsError -> Async A) w :
  advance (try_catch p h) w =
  match advance p w with
  | (Finished (Ok a), w') => (Finished (Ok a), w')
  | (Finished (Err e), w') => advance (h e) w'
  | (Pending c k, w') => (Pending c (fun r => try_catch (k r) h), w')
  end.
Proof.
  revert w. induction p as [a|e|g k IH|k IH|c k IH]; cbn; intros w; auto.
Qed.

Lemma exec_advance {A} (p : Async A) o i w :
  exec p o i w =
  match advance p w with
  | (Finished r, w') => (r, w')
  | (Pending h k, w') => exec (k (o h i)) o (S i) w'
  end.
Proof.
  revert w. induction p as [a|e|g k IH|k IH|h k IH]; cbn; intros w; auto.
Qed.

(** A helper that runs to its end in one segment is, for the logic, the
    update it performs. *)
Lemma wpg_segment {A} aw (p : Async A) Q w r w' :
  advance p w = (Finished r, w') -> Q r w' -> wpg aw p Q w.
Proof.
  revert w. induction p as [a|e|g k IH|k IH|h k IH]; cbn; intros w E HQ.
  - now injection E as <- <-.
  - now injection E as <- <-.
  - now apply IH.
  - now apply IH.
  - discriminate.
Qed.

(** What a proof by [wpg] says of the first segment of a run. *)
Lemma wpg_advance {A} aw (p : Async A) Q w :
  wpg aw p Q w ->
  match advance p w with
  | (Finished r, w') => Q r w'
  | (Pending h k, w') => aw h w' (fun r u => wpg aw (k r) Q u)
  end.
Proof.
  revert w. induction p as [a|e|g k IH|k IH|h k IH]; cbn; intros w H;
    try exact H; apply IH; exact H.
Qed.

Lemma advance_stopRenderLoop w :
  advance stopRenderLoop w = (Finished (Ok tt), stopRenderLoop_fx w).
Proof.
  unfold stopRenderLoop, stopRenderLoop_fx. cbn.
  destruct w as [r u h]; destruct r as [? ? ? ? ? ? ? ? [raf|] ?], h; cbn;
    rewrite ?app_nil_r; reflexivity.
Qed.

Lemma advance_clearCanvas w :
  advance clearCanvas w = (Finished (Ok tt), clearCanvas_fx w).
Proof.
  unfold clearCanvas, clearCanvas_fx. cbn.
  destruct w as [r u h]; destruct r as [[c|] ? ? ? ? ? ? ? ? ?], h; cbn.
  - destruct (has2d c); cbn; unfold upd_refs, upd_host; cbn;
      rewrite <- ?app_assoc, ?app_nil_r; reflexivity.
  - rewrite app_nil_r. reflexivity.
Qed.

Lemma advance_fitCanvas w :
  advance fitCanvas w = (Finished (Ok tt), fitCanvas_fx w).
Proof.
  unfold fitCanvas, fitCanvas_fx. cbn.
  destruct w as [r u h]; destruct r as [[c|] ? ? ? ? ? ? ? ? ?], h; cbn.
  - reflexivity.
  - rewrite app_nil_r. reflexivity.
Qed.

Lemma advance_emit_all {A} es (k : Async A) : forall w,
  advance (emit_all es ;; k) w =
  advance k (upd_host (fun h => set_log (log h ++ es) h) w).
Proof.
  induction es as [|e es IH]; intros w; cbn.
  - destruct w as [r u h]; destruct h; cbn. unfold upd_host; cbn.
    now rewrite app_nil_r.
  - rewrite IH. destruct w as [r u h]; destruct h; unfold upd_host; cbn.
    now rewrite <- app_assoc.
Qed.

Lemma advance_draw w :
  advance draw w = (Finished (Ok tt), draw_fx w).
Proof.
  unfold draw, draw_fx, draw_ready, draw_events. cbn [advance].
  destruct w as [r u h];
    destruct r as [[c|] ? [a|] ? ? ? ? ? ? [d|]], h;
    cbn [refs canvasRef analyserRef dataArrayRef];
    try (cbn; rewrite !app_nil_r; reflexivity).
  destruct (has2d c); [|cbn; rewrite !app_nil_r; reflexivity].
  cbn [bind requestAnimationFrame fresh modify emit store advance].
  rewrite advance_emit_all.
  lazy beta iota zeta delta
    [upd_host upd_refs refs ui host set_log set_frames set_nextId
     set_rafIdRef set_dataArrayRef set_canvasRef option_map
     canvasRef audioCtxRef analyserRef micSourceRef micStreamRef
     fileSourceRef audioElRef mediaElSourceRef rafIdRef dataArrayRef
     devicePixelRatio signal nextId edges frames liveStreams liveSources
     hooked log buf bytes].
  repeat rewrite <- app_assoc.
  reflexivity.
Qed.

Lemma advance_opt_disconnect (g : Refs -> option nat) w :
  advance (opt g disconnect) w =
  (Finished (Ok tt), disconnect_fx (g (refs w)) w).
Proof.
  unfold opt, disconnect_fx. cbn.
  destruct (g (refs w)); [reflexivity|].
  destruct w as [r u h]; destruct h; unfold upd_host; cbn.
  now rewrite app_nil_r.
Qed.

Lemma advance_opt_stopTracks (g : Refs -> option nat) w :
  advance (opt g stopTracks) w =
  (Finished (Ok tt), stopTracks_fx (g (refs w)) w).
Proof.
  unfold opt, stopTracks_fx. cbn.
  destruct (g (refs w)); [reflexivity|].
  destruct w as [r u h]; destruct h; unfold upd_host; cbn.
  now rewrite app_nil_r.
Qed.

Lemma advance_opt {V} (g : Refs -> option V) (k : V -> Async unit) w :
  advance (opt g k) w =
  match g (refs w) with
  | Some v => advance (k v) w
  | None => (Finished (Ok tt), w)
  end.
Proof. unfold opt. cbn. destruct (g (refs w)); reflexivity. Qed.

Lemma wpg_stopRenderLoop aw Q w :
  Q (Ok tt) (stopRenderLoop_fx w) -> wpg aw stopRenderLoop Q w.
Proof. apply wpg_segment, advance_stopRenderLoop. Qed.

Lemma wpg_clearCanvas aw Q w :
  Q (Ok tt) (clearCanvas_fx w) -> wpg aw clearCanvas Q w.
Proof. apply wpg_segment, advance_clearCanvas. Qed.

Lemma wpg_fitCanvas aw Q w :
  Q (Ok tt) (fitCanvas_fx w) -> wpg aw fitCanvas Q w.
Proof. apply wpg_segment, advance_fitCanvas. Qed.

Lemma wpg_draw aw Q w :
  Q (Ok tt) (draw_fx w) -> wpg aw draw Q w.
Proof. apply wpg_segment, advance_draw. Qed.

Lemma wpg_opt_disconnect aw (g : Refs -> option nat) Q w :
  Q (Ok tt) (disconnect_fx (g (refs w)) w) -> wpg aw (opt g disconnect) Q w.
Proof. apply wpg_segment, advance_opt_disconnect. Qed.

Lemma wpg_opt_stopTracks aw (g : Refs -> option nat) Q w :
  Q (Ok tt) (stopTracks_fx (g (refs w)) w) -> wpg aw (opt g stopTracks) Q w.
Proof. apply wpg_segment, advance_opt_stopTracks. Qed.

(** The rules of [wpg], one per constructor. *)
Lemma wpg_ret {A} aw (a : A) (Q : Result A -> World -> Prop) w :
  Q (Ok a) w -> wpg aw (Ret a) Q w.
Proof. exact (fun H => H). Qed.

Lemma wpg_throw {A} aw e (Q : Result A -> World -> Prop) w :
  Q (Err e) w -> wpg aw (Throw e) Q w.
Proof. exact (fun H => H). Qed.

Lemma wpg_upd {A} aw f (k : Async A) Q w :
  wpg aw k Q (f w) -> wpg aw (Upd f k) Q w.
Proof. exact (fun H => H). Qed.

Lemma wpg_rd {A} aw (k : World -> Async A) Q w :
  wpg aw (k w) Q w -> wpg aw (Rd k) Q w.
Proof. exact (fun H => H). Qed.

Lemma wpg_await {A} ok h (k : Reply -> Async A) Q w :
  (forall r, ok h r -> wpg (answers ok) (k r) Q w) ->
  wpg (answers ok) (Await h k) Q w.
Proof. exact (fun H => H). Qed.


(** An [await] with no frame callback scheduled. *)
Lemma wpg_await_stays {A} I h (k : Reply -> Async A) Q w :
  frames (host w) = [] -> I w ->
  (forall r, wpg (relying I stays) (k r) Q w) ->
  wpg (relying I stays) (Await h k) Q w.
Proof.
  intros Hf Hw Hk. split; [exact Hw|].
  intros r u _ Hu. rewrite (Hu Hf). apply Hk.
Qed.

(** ** Symbolic execution *)

Ltac head_of t :=
  lazymatch t with
  | ?f _ => head_of f
  | _ => t
  end.

(** Reduce the reads and writes of the world, and nothing else. *)
Ltac world_cbv t :=
  eval cbv beta iota zeta delta
    [refs ui host upd_refs upd_ui upd_host
     canvasRef audioCtxRef analyserRef micSourceRef micStreamRef
     fileSourceRef audioElRef mediaElSourceRef rafIdRef dataArrayRef
     mode isMicOn isFilePlaying fileName currentTrackId busy error
     devicePixelRatio signal nextId edges frames liveStreams liveSources
     hooked log
     set_canvasRef set_audioCtxRef set_analyserRef set_micSourceRef
     set_micStreamRef set_fileSourceRef set_audioElRef set_mediaElSourceRef
     set_rafIdRef set_dataArrayRef
     set_mode set_isMicOn set_isFilePlaying set_fileName set_currentTrackId
     set_busy set_error
     set_devicePixelRatio set_signal set_nextId set_edges set_frames
     set_liveStreams set_liveSources set_hooked set_log
     stopRenderLoop_fx clearCanvas_fx fitCanvas_fx draw_fx disconnect_fx
     stopTracks_fx option_map
     src paused currentTime muted onended attached
     node fftSize smoothingTimeConstant configure buf bytes newAudio] in t.

Ltac norm_world_arg :=
  lazymatch goal with
  | |- ?Q ?r ?w => let w' := world_cbv w in change w with w'
  end.

(** The postcondition is kept under a name, so that a handler it mentions
    is written once however many statements its [try] block has. *)
Ltac name_post :=
  lazymatch goal with
  | |- wpg _ _ ?Q _ =>
      first [ is_var Q | let K := fresh "K" in set (K := Q) ]
  end.

Ltac apply_post :=
  cbv beta iota;
  repeat lazymatch goal with
         | |- ?Q _ _ => is_var Q; unfold Q; cbv beta iota
         end.

Ltac norm_world :=
  lazymatch goal with
  | |- wpg ?aw ?p ?Q ?w => let w' := world_cbv w in change w with w'
  end.

Ltac wp_step Hmono :=
  lazymatch goal with
  | |- wpg _ (bind _ _) _ _ => name_post; apply (wpg_bind _ _ _ _ Hmono)
  | |- wpg _ (try_catch _ _) _ _ =>
      name_post; apply (wpg_try_catch _ _ _ _ Hmono)
  | |- wpg _ stopRenderLoop _ _ =>
      apply wpg_stopRenderLoop; norm_world_arg; apply_post;
      lazymatch goal with
      | |- context [remove Nat.eq_dec ?r [?r]] => rewrite remove_one
      | |- context [remove Nat.eq_dec _ []] => rewrite cancel_nil
      | |- _ => idtac
      end
  | |- wpg _ clearCanvas _ _ =>
      apply wpg_clearCanvas; norm_world_arg; apply_post
  | |- wpg _ fitCanvas _ _ =>
      apply wpg_fitCanvas; norm_world_arg; apply_post
  | |- wpg _ draw _ _ => apply wpg_draw; norm_world_arg; apply_post
  | |- wpg _ (opt ?g disconnect) _ ?w =>
      apply wpg_opt_disconnect; norm_world_arg; apply_post
  | |- wpg _ (opt ?g stopTracks) _ ?w =>
      apply wpg_opt_stopTracks; norm_world_arg; apply_post
  | |- wpg ?aw (Ret ?a) ?Q ?w =>
      apply wpg_ret;
      let a' := world_cbv a in change a with a';
      apply_post
  | |- wpg ?aw (Throw ?e) ?Q ?w =>
      apply wpg_throw;
      let e' := world_cbv e in change e with e';
      apply_post
  | |- wpg ?aw (Upd ?f ?k) ?Q ?w => apply wpg_upd; norm_world
  | |- wpg ?aw (Rd ?k) ?Q ?w =>
      apply wpg_rd;
      lazymatch goal with
      | |- wpg _ ?p _ _ => let p' := eval cbv beta in p in change p with p'
      end
  | |- wpg (answers _) (Await _ _) _ _ =>
      let r := fresh "r" in
      let Hr := fresh "Hr" in
      apply wpg_await; intros r Hr; cbv beta; cbn in Hr; try subst r
  | |- wpg (relying _ stays) (Await _ _) _ _ =>
      let r := fresh "r" in
      apply wpg_await_stays; [reflexivity| |intros r; cbv beta]
  | |- wpg _ (match ?x with _ => _ end) _ _ =>
      let x' := world_cbv x in
      change x with x';
      first [ progress cbv iota
            | is_var x'; destruct x'
            | destruct x' eqn:? ]
  | |- wpg _ ?p _ _ => let h := head_of p in unfold h
  end.

Ltac wp_finish :=
  lazymatch goal with
  | |- wpg _ _ _ _ => idtac
  | |- ?G =>
      let G' := world_cbv G in
      change G';
      repeat match goal with K := _ : Result _ -> World -> Prop |- _ =>
               clear K
             end
  end.

Ltac wp_run Hmono := repeat wp_step Hmono; wp_finish.

Ltac open_world w :=
  let r := fresh "r" in
  let u := fresh "u" in
  let h := fresh "h" in
  destruct w as [r u h];
  destruct r as [canvasRef0 audioCtxRef0 analyserRef0 micSourceRef0
                 micStreamRef0 fileSourceRef0 audioElRef0 mediaElSourceRef0
                 rafIdRef0 dataArrayRef0];
  destruct u as [mode0 isMicOn0 isFilePlaying0 fileName0 currentTrackId0
                 busy0 error0];
  destruct h as [devicePixelRatio0 signal0 nextId0 edges0 frames0
                 liveStreams0 liveSources0 hooked0 log0].

(** A second world, the one in which a run resumes. *)
Ltac open_world' w :=
  let r := fresh "r" in
  let u := fresh "u" in
  let h := fresh "h" in
  destruct w as [r u h];
  destruct r as [canvasRef1 audioCtxRef1 analyserRef1 micSourceRef1
                 micStreamRef1 fileSourceRef1 audioElRef1 mediaElSourceRef1
                 rafIdRef1 dataArrayRef1];
  destruct u as [mode1 isMicOn1 isFilePlaying1 fileName1 currentTrackId1
                 busy1 error1];
  destruct h as [devicePixelRatio1 signal1 nextId1 edges1 frames1
                 liveStreams1 liveSources1 hooked1 log1].

(** ** Mode *)

Lemma leave_frame kind m : mode_frame kind m (leave kind m).
Proof.
  destruct kind, m; cbv; split; auto; intros H; try reflexivity; now elim H.
Qed.

Lemma mode_frame_refl kind m : mode_frame kind m m.
Proof. split; auto. Qed.

Lemma leave_leave kind m : leave kind (leave kind m) = leave kind m.
Proof. destruct kind, m; reflexivity. Qed.

Ltac mode_goal := first [ apply leave_frame | apply mode_frame_refl ].

Lemma V2_stopMic_mode w :
  wp V2.stopMic
     (fun _ w' => mode_frame mic (mode (ui w)) (mode (ui w'))) w.
Proof.
  open_world w. unfold wp.
  wp_run (@answers_monotone any_reply); mode_goal.
Qed.

Lemma V2_stopFilePlayback_mode w :
  wp V2.stopFilePlayback
     (fun _ w' => mode_frame file (mode (ui w)) (mode (ui w'))) w.
Proof.
  open_world w. unfold wp.
  wp_run (@answers_monotone any_reply); mode_goal.
Qed.

Lemma V3_stopMic_mode w :
  wp V3.stopMic
     (fun _ w' => mode_frame mic (mode (ui w)) (mode (ui w'))) w.
Proof.
  open_world w. unfold wp.
  wp_run (@answers_monotone any_reply); mode_goal.
Qed.

Lemma V3_stopPresetPlayback_mode w :
  wp V3.stopPresetPlayback
     (fun _ w' => mode_frame file (mode (ui w)) (mode (ui w'))) w.
Proof.
  open_world w. unfold wp.
  wp_run (@answers_monotone any_reply); mode_goal.
Qed.

Lemma V4_stopMic_mode w :
  wp V4.stopMic
     (fun _ w' => mode_frame mic (mode (ui w)) (mode (ui w'))) w.
Proof.
  open_world w. unfold wp.
  wp_run (@answers_monotone any_reply); mode_goal.
Qed.

Lemma V4_stopPresetPlayback_mode w :
  wp V4.stopPresetPlayback
     (fun _ w' => mode_frame file (mode (ui w)) (mode (ui w'))) w.
Proof.
  open_world w. unfold wp.
  wp_run (@answers_monotone any_reply); mode_goal.
Qed.

(** ** Stopping *)

Lemma blanked_cleared w (c : option Canvas) :
  canvasRef (refs w) =
    match c with
    | Some canvas =>
        Some (if has2d canvas then paint Black canvas else canvas)
    | None => None
    end ->
  blanked w.
Proof.
  unfold blanked. intros -> c' E H2. destruct c as [c|]; [|discriminate].
  injection E as <-.
  destruct (has2d c) eqn:Hc; [reflexivity|].
  rewrite Hc in H2. discriminate.
Qed.


Lemma leave_not kind m : leave kind m <> kind \/ kind = idle.
Proof. destruct kind, m; cbv; auto; left; discriminate. Qed.

Lemma leave_mic_not m : leave mic m <> mic.
Proof. destruct m; cbv; discriminate. Qed.

Lemma leave_file_not m : leave file m <> file.
Proof. destruct m; cbv; discriminate. Qed.


Ltac blank_goal :=
  lazymatch goal with
  | |- blanked _ => eapply blanked_cleared; reflexivity
  end.

Ltac stop_goal :=
  repeat split;
  first [ reflexivity | blank_goal | apply leave_mic_not | apply leave_file_not
        | idtac ].

Lemma V2_stopMic_spec w :
  wp V2.stopMic
     (fun r w' =>
        r = Ok tt /\ mic_stopped w' /\
        fileSourceRef (refs w') = fileSourceRef (refs w) /\
        mediaElSourceRef (refs w') = mediaElSourceRef (refs w) /\
        nextId (host w') = nextId (host w)) w.
Proof.
  open_world w. unfold wp, mic_stopped.
  wp_run (@answers_monotone any_reply); stop_goal.
Qed.


Lemma V2_stopFilePlayback_spec w :
  wp V2.stopFilePlayback
     (fun r w' =>
        r = Ok tt /\ file_stopped w' /\
        micSourceRef (refs w') = micSourceRef (refs w) /\
        micStreamRef (refs w') = micStreamRef (refs w) /\
        mediaElSourceRef (refs w') = mediaElSourceRef (refs w) /\
        liveStreams (host w') = liveStreams (host w) /\
        hooked (host w') = hooked (host w) /\
        liveSources (host w') = liveSources (host w)) w.
Proof.
  open_world w. unfold wp, file_stopped.
  wp_run (@answers_monotone any_reply); stop_goal.
Qed.


Lemma V4_stopMic_is_V2 : V4.stopMic = V2.stopMic.
Proof. reflexivity. Qed.

Lemma V4_stopPresetPlayback_spec w :
  wp V4.stopPresetPlayback
     (fun r w' =>
        r = Ok tt /\ preset_stopped w' /\
        micSourceRef (refs w') = micSourceRef (refs w) /\
        micStreamRef (refs w') = micStreamRef (refs w) /\
        fileSourceRef (refs w') = fileSourceRef (refs w) /\
        liveStreams (host w') = liveStreams (host w)) w.
Proof.
  open_world w. unfold wp, preset_stopped, element_at_rest.
  wp_run (@answers_monotone any_reply); stop_goal;
    match goal with
    | H : _ = Some _ |- _ =>
        first [ discriminate H | injection H as <-; reflexivity ]
    end.
Qed.

(** ** Effects *)


Lemma steps_in_bind {A B} G (p : Async A) (f : A -> Async B) :
  steps_in G p -> (forall a, steps_in G (f a)) -> steps_in G (bind p f).
Proof.
  intros Hp Hf. induction p as [a|e|g k IH|k IH|h k IH]; cbn in *; auto.
  destruct Hp. auto.
Qed.

Lemma steps_in_try_catch {A} G (p : Async A) (h : JsError -> Async A) :
  steps_in G p -> (forall e, steps_in G (h e)) -> steps_in G (try_catch p h).
Proof.
  intros Hp Hh. induction p as [a|e|g k IH|k IH|c k IH]; cbn in *; auto.
  destruct Hp. auto.
Qed.

Lemma steps_in_upd {A} (G : World -> World -> Prop) f (k : Async A) :
  (forall w, G w (f w)) -> steps_in G k -> steps_in G (Upd f k).
Proof. intros; split; assumption. Qed.

Lemma steps_in_rd {A} G (k : World -> Async A) :
  (forall w, steps_in G (k w)) -> steps_in G (Rd k).
Proof. intros H; exact H. Qed.

Lemma steps_in_await {A} G h (k : Reply -> Async A) :
  (forall r, steps_in G (k r)) -> steps_in G (Await h k).
Proof. intros H; exact H. Qed.

Section Steps.

Variable G : World -> World -> Prop.
Hypothesis G_refl : forall w, G w w.
Hypothesis G_trans : forall a b c, G a b -> G b c -> G a c.

(** A program whose updates are steps of a preorder makes one step of it,
    whatever the browser answers. *)
Lemma steps_in_wpg {A} ok (p : Async A) :
  steps_in G p ->
  forall w0 w, G w0 w -> wpg (answers ok) p (fun _ w' => G w0 w') w.
Proof.
  induction p as [a|e|f k IH|k IH|h k IH]; cbn; intros Hp w0 w Hw; auto.
  - destruct Hp as (Hf & Hk). apply IH; [exact Hk|].
    eapply G_trans; [exact Hw|apply Hf].
  - intros r _. apply IH; auto.
Qed.

Lemma steps_in_advance {A} (p : Async A) :
  steps_in G p ->
  forall w, G w (snd (advance p w)) /\
            match fst (advance p w) with
            | Finished _ => True
            | Pending _ f => forall r, steps_in G (f r)
            end.
Proof.
  induction p as [a|e|f k IH|k IH|h k IH]; cbn; intros Hp w; auto.
  destruct Hp as (Hf & Hk). destruct (IH Hk (f w)) as (H1 & H2).
  split; [|exact H2]. eapply G_trans; [apply Hf|exact H1].
Qed.

End Steps.

Lemma steps_in_emit_all G es :
  (forall e, steps_in G (emit e)) -> steps_in G (emit_all es).
Proof.
  intros H. induction es as [|e es IH]; [exact I|].
  change (steps_in G (bind (emit e) (fun _ => emit_all es))).
  apply steps_in_bind; [apply H|intros _; exact IH].
Qed.

(** Programs are opened one definition at a time; an update is left to
    [tac]. *)
Ltac steps_step tac :=
  lazymatch goal with
  | |- steps_in _ (bind _ _) => apply steps_in_bind; [|intros ?]
  | |- steps_in _ (try_catch _ _) => apply steps_in_try_catch; [|intros ?]
  | |- steps_in _ (Ret _) => exact I
  | |- steps_in _ (Throw _) => exact I
  | |- steps_in _ (Upd _ _) => apply steps_in_upd; [intros ?; tac|]
  | |- steps_in _ (Rd _) => apply steps_in_rd; intros ?; cbv beta
  | |- steps_in _ (Await _ _) => apply steps_in_await; intros ?; cbv beta
  | |- steps_in _ (match ?x with _ => _ end) => destruct x
  | |- steps_in _ (emit_all _) => apply steps_in_emit_all; intros ?
  | |- steps_in _ ?p => let h := head_of p in unfold h
  end.

Ltac steps_run tac := repeat steps_step tac.

Lemma same_ids_refl w : same_ids w w.
Proof. reflexivity. Qed.

Lemma same_ids_trans a b c : same_ids a b -> same_ids b c -> same_ids a c.
Proof. unfold same_ids. congruence. Qed.

Ltac same_ids_goal :=
  idtac;
  lazymatch goal with
  | |- same_ids ?w _ => destruct w as [? ? []]; reflexivity
  end.

Lemma V2_stopFilePlayback_same_ids : steps_in same_ids V2.stopFilePlayback.
Proof. steps_run same_ids_goal. Qed.

Lemma V2_stopMic_same_ids : steps_in same_ids V2.stopMic.
Proof. steps_run same_ids_goal. Qed.

Lemma V4_stopPresetPlayback_same_ids :
  steps_in same_ids V4.stopPresetPlayback.
Proof. steps_run same_ids_goal. Qed.

(** ** Composing specifications *)

Lemma wpg_and {A} ok (p : Async A) (Q Q' : Result A -> World -> Prop) w :
  wpg (answers ok) p Q w -> wpg (answers ok) p Q' w ->
  wpg (answers ok) p (fun r u => Q r u /\ Q' r u) w.
Proof.
  revert w. induction p as [a|e|f k IH|k IH|h k IH]; cbn; intros w H H'; auto.
  intros r Hr. apply IH; [apply H|apply H']; exact Hr.
Qed.

Lemma wpg_fewer_answers {A} (ok ok' : HostCall -> Reply -> Prop)
  (p : Async A) Q w :
  (forall h r, ok' h r -> ok h r) ->
  wpg (answers ok) p Q w -> wpg (answers ok') p Q w.
Proof.
  intros Hok. revert w.
  induction p as [a|e|f k IH|k IH|h k IH]; cbn; intros w H; auto.
  intros r Hr. apply IH, H, Hok, Hr.
Qed.

Lemma wp_any {A} ok (p : Async A) Q w :
  wp p Q w -> wpg (answers ok) p Q w.
Proof. apply wpg_fewer_answers. intros; exact I. Qed.

(** [p ;; f] by a specification of [p]. *)
Lemma wpg_seq {A B} ok (p : Async A) (f : A -> Async B)
  (S : Result A -> World -> Prop) Q w :
  wpg (answers ok) p S w ->
  (forall r u, S r u -> match r with
                        | Ok a => wpg (answers ok) (f a) Q u
                        | Err e => Q (Err e) u
                        end) ->
  wpg (answers ok) (bind p f) Q w.
Proof.
  intros Hp Hf. apply wpg_bind; [apply answers_monotone|].
  eapply wpg_mono; [apply answers_monotone| |exact Hp]. exact Hf.
Qed.

(** A program that returns normally and whose updates are steps of [G]. *)
Lemma wpg_returns_in {A} ok G (p : Async A) (a : A) Q w :
  (forall w, G w w) -> (forall a b c, G a b -> G b c -> G a c) ->
  wp p (fun r u => r = Ok a /\ Q u) w -> steps_in G p ->
  wpg (answers ok) p (fun r u => r = Ok a /\ Q u /\ G w u) w.
Proof.
  intros Hr Ht Hp Hs.
  eapply wpg_mono; [apply answers_monotone| |].
  2: { apply wpg_and; [apply wp_any, Hp|].
       apply (@steps_in_wpg G Ht _ ok p Hs w w (Hr w)). }
  cbv beta. intros r u ((-> & HQ) & HG). auto.
Qed.

(** ** Starting the microphone *)

Lemma granted_monotone : monotone (answers granted).
Proof. apply answers_monotone. Qed.

Lemma denied_monotone e : monotone (answers (denied e)).
Proof. apply answers_monotone. Qed.

Lemma grants_granted o : grants_capture o -> forall h i, granted h (o h i).
Proof. intros H [] i; cbn; auto. Qed.

Lemma rejects_denied e o :
  rejects_capture e o -> forall h i, denied e h (o h i).
Proof. intros H [] i; cbn; auto. Qed.

Lemma no_capture_in_clear c :
  filter is_capture_request (clearCanvas_events c) = [].
Proof. destruct c as [c|]; cbn; [destruct (has2d c)|]; reflexivity. Qed.

(** The requests of a run that asked for the microphone once. *)
Ltac count_requests :=
  unfold capture_requests; cbn [log host];
  repeat rewrite filter_app; repeat rewrite length_app;
  rewrite ?no_capture_in_clear;
  repeat match goal with
         | |- context [match ?x with _ => _ end] => destruct x
         end;
  cbn; lia.

Lemma V1_startMic_denied e w :
  wpg (answers (denied e)) V1.startMic
      (fun r w' => r = Ok tt /\ capture_failed mic_fallback e w w') w.
Proof.
  open_world w. unfold capture_failed.
  wp_run (@denied_monotone e); try discriminate.
  all: repeat split; try reflexivity; try blank_goal; try count_requests.
Qed.

Lemma V2_startMic_denied e w :
  wpg (answers (denied e)) V2.startMic
      (fun r w' => r = Ok tt /\ capture_failed mic_fallback e w w' /\
                   mode (ui w') = idle /\ rafIdRef (refs w') = None) w.
Proof.
  open_world w. unfold capture_failed.
  wp_run (@denied_monotone e); try discriminate.
  all: repeat split; try reflexivity; try blank_goal; try count_requests.
Qed.

Ltac fresh_buffer_goal :=
  unfold fresh_buffer;
  lazymatch goal with
  | |- context [draw_ready ?W] => destruct (draw_ready W)
  end;
  do 2 eexists;
  (split; [reflexivity|]); (split; [reflexivity|]); (split; [reflexivity|]);
  (split; [reflexivity|]);
  (split; [cbn [bytes]; rewrite ?overwrite_length, repeat_length; reflexivity|]);
  cbn; lia.

Lemma V1_startMic_granted w :
  wpg (answers granted) V1.startMic
      (fun r w' => r = Ok tt /\ fresh_buffer w w') w.
Proof.
  open_world w.
  wp_run granted_monotone; try discriminate.
  all: split; [reflexivity|fresh_buffer_goal].
Qed.

(** The stop that opens a start returns, and allocates nothing. *)
Lemma V2_stopFilePlayback_returns ok w :
  wpg (answers ok) V2.stopFilePlayback
      (fun r u => r = Ok tt /\ True /\ same_ids w u) w.
Proof.
  apply (@wpg_returns_in _ ok same_ids V2.stopFilePlayback tt
           (fun _ => True) w same_ids_refl same_ids_trans);
    [|apply V2_stopFilePlayback_same_ids].
  eapply wpg_mono; [apply answers_monotone| |apply V2_stopFilePlayback_spec].
  cbv beta. intros r u H. split; [apply H|exact I].
Qed.

Lemma V4_stopPresetPlayback_returns ok w :
  wpg (answers ok) V4.stopPresetPlayback
      (fun r u => r = Ok tt /\ True /\ same_ids w u) w.
Proof.
  apply (@wpg_returns_in _ ok same_ids V4.stopPresetPlayback tt
           (fun _ => True) w same_ids_refl same_ids_trans);
    [|apply V4_stopPresetPlayback_same_ids].
  eapply wpg_mono;
    [apply answers_monotone| |apply V4_stopPresetPlayback_spec].
  cbv beta. intros r u H. split; [apply H|exact I].
Qed.

Lemma V2_startMic_granted w :
  wpg (answers granted) V2.startMic
      (fun r w' => r = Ok tt /\ fresh_buffer w w') w.
Proof.
  unfold V2.startMic.
  eapply wpg_seq; [apply V2_stopFilePlayback_returns|].
  intros r u (-> & _ & Hid). cbv beta iota.
  open_world u. unfold same_ids in Hid. cbn in Hid.
  wp_run granted_monotone; try discriminate.
  all: split; [reflexivity|fresh_buffer_goal].
Qed.

Lemma V4_startMic_granted w :
  wpg (answers granted) V4.startMic
      (fun r w' => r = Ok tt /\ fresh_buffer w w') w.
Proof.
  unfold V4.startMic.
  eapply wpg_seq; [apply V4_stopPresetPlayback_returns|].
  intros r u (-> & _ & Hid). cbv beta iota.
  open_world u. unfold same_ids in Hid. cbn in Hid.
  wp_run granted_monotone; try discriminate.
  all: split; [reflexivity|fresh_buffer_goal].
Qed.

Lemma V1_stopMic_spec w :
  wp V1.stopMic
     (fun r w' => r = Ok tt /\ dataArrayRef (refs w') = None /\
                  nextId (host w') = nextId (host w)) w.
Proof.
  open_world w. unfold wp.
  wp_run (@answers_monotone any_reply); repeat split.
Qed.
(** ** Order of requests in the trace *)

Lemma before_playback_app a l r :
  In a l -> before_playback a l -> before_playback a (l ++ r).
Proof.
  intros Ha Hl l1 e l2 E He.
  apply app_eq_app in E. destruct E as (m & [(E1 & E2)|(E1 & E2)]).
  - destruct m as [|x m].
    + rewrite app_nil_r in E1. subst l1. exact Ha.
    + cbn in E2. injection E2 as Ex E2. subst x l.
      apply (Hl l1 e m eq_refl He).
  - subst l1. apply in_or_app. left. exact Ha.
Qed.

Lemma stopped_first_later a l0 l r :
  stopped_first a l0 l -> stopped_first a l0 (l ++ r).
Proof.
  intros (new & -> & Ha & Hb). exists (new ++ r).
  split; [symmetry; apply app_assoc|].
  split; [apply in_or_app; left; exact Ha|].
  apply before_playback_app; assumption.
Qed.

Lemma quiet_before a l : quiet l -> before_playback a l.
Proof.
  intros Hl l1 e l2 E He. rewrite (Hl e) in He; [discriminate|].
  subst l. apply in_or_app. right. left. reflexivity.
Qed.

Lemma quiet_app p q : quiet p -> quiet q -> quiet (p ++ q).
Proof.
  intros Hp Hq e He. apply in_app_or in He. destruct He; auto.
Qed.

Lemma quiet_cancel (r : option nat) :
  quiet match r with Some r => [CancelFrame r] | None => [] end.
Proof.
  destruct r; intros e He; cbn in He;
    [destruct He as [<-|[]]; reflexivity|destruct He].
Qed.

Lemma quiet_disconnect (a : option nat) :
  quiet match a with Some a => [Disconnect a] | None => [] end.
Proof.
  destruct a; intros e He; cbn in He;
    [destruct He as [<-|[]]; reflexivity|destruct He].
Qed.

Lemma quiet_stop s : quiet [TrackStop s].
Proof. intros e [<-|[]]; reflexivity. Qed.

Lemma stopped_first_now s l0 p :
  quiet p -> stopped_first (TrackStop s) l0 ((l0 ++ p) ++ [TrackStop s]).
Proof.
  intros Hp. exists (p ++ [TrackStop s]).
  split; [symmetry; apply app_assoc|].
  split; [apply in_or_app; right; left; reflexivity|].
  apply quiet_before, quiet_app; [exact Hp|apply quiet_stop].
Qed.

Lemma stopped_first_now2 s l0 p q :
  quiet p -> quiet q ->
  stopped_first (TrackStop s) l0 (((l0 ++ p) ++ q) ++ [TrackStop s]).
Proof.
  intros Hp Hq. rewrite <- (app_assoc l0 p q).
  apply stopped_first_now, quiet_app; assumption.
Qed.

Lemma appends_refl w : appends w w.
Proof. split; [exists []; symmetry; apply app_nil_r|reflexivity]. Qed.

Lemma appends_trans a b c : appends a b -> appends b c -> appends a c.
Proof.
  intros ((n1 & E1) & L1) ((n2 & E2) & L2). split; [|congruence].
  exists (n1 ++ n2). rewrite E2, E1. symmetry. apply app_assoc.
Qed.

Ltac appends_goal :=
  idtac;
  lazymatch goal with
  | |- appends ?w _ =>
      destruct w as [? ? []]; split; cbn;
      [first [ exists []; symmetry; apply app_nil_r
             | eexists; reflexivity ]
      |reflexivity]
  end.

Lemma released_before_playback_later s w u w' :
  released_before_playback s w u -> appends u w' ->
  released_before_playback s w w'.
Proof.
  intros (H1 & H2) ((new & E) & L). split.
  - rewrite E. apply stopped_first_later, H1.
  - rewrite L. exact H2.
Qed.

(** [stopMic] stops the tracks of the stream it holds, after it has
    cancelled the frame and disconnected the source. *)
Lemma V2_stopMic_order s w :
  micStreamRef (refs w) = Some s ->
  wp V2.stopMic
     (fun r w' => r = Ok tt /\ released_before_playback s w w') w.
Proof.
  intros H. open_world w. cbn in H. subst.
  unfold wp, released_before_playback.
  wp_run (@answers_monotone any_reply).
  all: split; [reflexivity|].
  all: split; [|apply remove_In].
  all: repeat first
         [ apply stopped_first_now2;
             [apply quiet_cancel|apply quiet_disconnect]
         | apply stopped_first_later ].
Qed.

(** What follows [stopMic] in a start of playback only adds to the trace. *)
Ltac rest_appends :=
  lazymatch goal with
  | |- wpg _ ?p _ ?u =>
      let Hs := fresh "Hs" in
      assert (Hs : steps_in appends p) by steps_run appends_goal;
      eapply wpg_mono;
      [ apply answers_monotone
      |
      | exact (@steps_in_wpg appends appends_trans _ any_reply p Hs u u
                 (appends_refl u)) ];
      cbv beta; intros ? ? ?;
      eapply released_before_playback_later; eassumption
  end.

Lemma V2_startFilePlayback_order f s w :
  micStreamRef (refs w) = Some s ->
  wp (V2.startFilePlayback f)
     (fun _ w' => released_before_playback s w w') w.
Proof.
  intros H. unfold wp, V2.startFilePlayback.
  eapply wpg_seq; [apply (V2_stopMic_order w H)|].
  intros r u (-> & Hu). cbv beta iota. rest_appends.
Qed.

Lemma V4_startPreset_order t s w :
  micStreamRef (refs w) = Some s ->
  wp (V4.startPreset t)
     (fun _ w' => released_before_playback s w w') w.
Proof.
  intros H. unfold wp, V4.startPreset.
  eapply wpg_seq; [apply (V2_stopMic_order w H)|].
  intros r u (-> & Hu). cbv beta iota. rest_appends.
Qed.
(** ** One run at a time *)


Lemma take_nil {T} n : take n (@nil T) = None.
Proof. destruct n; reflexivity. Qed.


Section Serial.

Variable Op : Type.
Variable C : Component Op.
Variable Inv : World -> Prop.

Hypothesis body_ok : forall op w,
  Inv w -> wpg (relying Inv stays) (body C op) (fun _ w' => Inv w') w.
Hypothesis handler_ok : forall w,
  Inv w -> wpg (relying Inv stays) (handler C) (fun _ w' => Inv w') w.
Hypothesis frame_ok : forall w spectrum r rest,
  Inv w -> frames (host w) = r :: rest ->
  Inv (draw_fx (upd_host (fun h => set_signal spectrum (set_frames rest h)) w)).
Hypothesis source_ended_ok : forall w n,
  Inv w ->
  Inv (upd_host (fun h =>
       set_liveSources (remove Nat.eq_dec n (liveSources h)) h) w).
Hypothesis element_ended_ok : forall w w' b,
  Inv w -> element_ended w = Some (w', b) -> Inv w'.




End Serial.
(** ** The audio graph *)



Lemma bounded_unlink n a es : bounded n es -> bounded n (unlink a es).
Proof.
  intros H e He. unfold unlink in He. apply filter_In in He. apply H, He.
Qed.








Lemma bounded_unlink_opt n a es :
  bounded n es -> bounded n (unlink_opt a es).
Proof. destruct a; [apply bounded_unlink|auto]. Qed.







Lemma In_link e a b es : In e (link a b es) <-> In e es \/ e = (a, b).
Proof.
  unfold link. destruct (existsb (edge_eqb (a, b)) es) eqn:E.
  - split; [auto|]. intros [H| ->]; [exact H|].
    apply existsb_exists in E. destruct E as ([x y] & H & E).
    unfold edge_eqb in E. cbn in E. apply andb_prop in E.
    destruct E as (E1 & E2). apply Nat.eqb_eq in E1, E2. subst. exact H.
  - rewrite in_app_iff. cbn. intuition congruence.
Qed.







(** ** The invariant of V2 *)






















(** ** The invariant of V3 *)

























(** * The claims *)





(** ** C10: the mode frame of the stop operations *)

(** C10.  [stopMic] takes the mode to [idle] only from [mic], and
    [stopFilePlayback] / [stopPresetPlayback] only from [file]; from any
    other mode they leave the mode as it was, whatever the browser answers.
    Checked for the three revisions that have a mode. *)
Theorem C10_stop_keeps_other_mode (o : Oracle) (w : World) :
  mode_frame mic (mode (ui w)) (mode (ui (after V2.stopMic o w))) /\
  mode_frame file (mode (ui w)) (mode (ui (after V2.stopFilePlayback o w))) /\
  mode_frame mic (mode (ui w)) (mode (ui (after V3.stopMic o w))) /\
  mode_frame file (mode (ui w))
             (mode (ui (after V3.stopPresetPlayback o w))) /\
  mode_frame mic (mode (ui w)) (mode (ui (after V4.stopMic o w))) /\
  mode_frame file (mode (ui w))
             (mode (ui (after V4.stopPresetPlayback o w))).
Proof.
  pose proof (@wp_after _ _ _ _ (V2_stopMic_mode w) o).
  pose proof (@wp_after _ _ _ _ (V2_stopFilePlayback_mode w) o).
  pose proof (@wp_after _ _ _ _ (V3_stopMic_mode w) o).
  pose proof (@wp_after _ _ _ _ (V3_stopPresetPlayback_mode w) o).
  pose proof (@wp_after _ _ _ _ (V4_stopMic_mode w) o).
  pose proof (@wp_after _ _ _ _ (V4_stopPresetPlayback_mode w) o).
  auto 10.
Qed.
(** ** C5: what a stop leaves behind *)





(** ** C6: capture refused *)

Lemma message_or_filled e :
  message e <> Some EmptyString ->
  Some (message_or e mic_fallback) <> Some EmptyString.
Proof.
  destruct e as [[m|]]; unfold message_or; cbn; intros H E.
  - apply H. exact E.
  - discriminate E.
Qed.

Lemma capture_failed_recovered e w w' :
  capture_failed mic_fallback e w w' -> recovered e w w'.
Proof.
  intros (Hm & He & Hb & Hc & _). repeat split; auto.
  intros H. rewrite He. apply message_or_filled, H.
Qed.

(** C6, as stated, fails: a rejection whose message is the empty string is
    surfaced as it is, in V1 and in V2. *)
Lemma C6_empty_message_is_surfaced :
  rejects_capture empty_message (refusing empty_message) /\
  error (ui (after V1.startMic (refusing empty_message)
                   (init (Some canvas333) 1))) = Some EmptyString /\
  error (ui (after V2.startMic (refusing empty_message)
                   (init (Some canvas333) 1))) = Some EmptyString.
Proof.
  split; [intros i; reflexivity|].
  split; vm_compute; reflexivity.
Qed.

(** C6, amended.  When the browser refuses capture with [e], [startMic]
    returns normally with the microphone flag down and the canvas blank,
    V2 is in mode [idle] (V1 has no mode), the error shown is the message
    of [e], or the fixed fallback text when [e] carries none, so it is
    non-empty unless [e] carries the empty message, and the microphone was
    asked for exactly once in the run. *)
Theorem C6_refused_capture_recovers (e : JsError) (o : Oracle) (w : World) :
  rejects_capture e o ->
  (outcome V1.startMic o w = Ok tt /\
   recovered e w (after V1.startMic o w)) /\
  (outcome V2.startMic o w = Ok tt /\
   recovered e w (after V2.startMic o w) /\
   mode (ui (after V2.startMic o w)) = idle).
Proof.
  intros Ho.
  pose proof (@wpg_exec _ (denied e) V1.startMic _ w (@V1_startMic_denied e w)
                        o (rejects_denied Ho) 0) as (H1 & H1').
  pose proof (@wpg_exec _ (denied e) V2.startMic _ w (@V2_startMic_denied e w)
                        o (rejects_denied Ho) 0) as (H2 & H2' & H2'' & _).
  split; [split; [exact H1|exact (capture_failed_recovered H1')]|].
  split; [exact H2|]. split; [exact (capture_failed_recovered H2')|exact H2''].
Qed.

Lemma C6_refused_capture_recovers_witness :
  rejects_capture no_message (refusing no_message) /\
  recovered no_message (init (Some canvas333) 1)
    (after V2.startMic (refusing no_message) (init (Some canvas333) 1)).
Proof.
  split; [intros i; reflexivity|].
  refine (proj1 (proj2 (proj2 (@C6_refused_capture_recovers no_message
           (refusing no_message) (init (Some canvas333) 1) _)))).
  intros i; reflexivity.
Defined.

(** ** C7: start, stop, start *)

Lemma fresh_twice w a b c :
  fresh_buffer w a -> dataArrayRef (refs b) = None ->
  nextId (host b) = nextId (host a) -> fresh_buffer b c ->
  round_trip w a b c.
Proof.
  intros Ha Hb Hn Hc. split; [exact Ha|]. split; [exact Hb|].
  split; [exact Hc|].
  destruct Ha as (a1 & b1 & _ & _ & _ & E1 & _ & _ & U1).
  destruct Hc as (a2 & b2 & _ & _ & _ & E2 & _ & L2 & _).
  exists b1, b2. repeat split; auto. lia.
Qed.

(** C7.  With capture granted at both starts, [startMic], [stopMic],
    [startMic] leaves after each start a frequency buffer of 128 bytes, the
    bin count of the analyser configured with [fftSize] 256; the stop in
    between drops the buffer, and the second start allocates a new one
    rather than reusing the first.  For V1, V2 and V4. *)
Theorem C7_startMic_stopMic_startMic (o1 o2 o3 : Oracle) (w : World) :
  grants_capture o1 -> grants_capture o3 ->
  round_trip w (after V1.startMic o1 w)
    (after V1.stopMic o2 (after V1.startMic o1 w))
    (after V1.startMic o3 (after V1.stopMic o2 (after V1.startMic o1 w))) /\
  round_trip w (after V2.startMic o1 w)
    (after V2.stopMic o2 (after V2.startMic o1 w))
    (after V2.startMic o3 (after V2.stopMic o2 (after V2.startMic o1 w))) /\
  round_trip w (after V4.startMic o1 w)
    (after V4.stopMic o2 (after V4.startMic o1 w))
    (after V4.startMic o3 (after V4.stopMic o2 (after V4.startMic o1 w))).
Proof.
  intros H1 H3.
  assert (G : forall (p : Async unit) w0 o,
             grants_capture o ->
             wpg (answers granted) p
                 (fun r w' => r = Ok tt /\ fresh_buffer w0 w') w0 ->
             fresh_buffer w0 (after p o w0)).
  { intros p w0 o Ho Hp.
    apply (@wpg_exec _ granted p _ w0 Hp o (grants_granted Ho) 0). }
  split; [|split].
  - pose proof (@wp_after _ _ _ _
                  (V1_stopMic_spec (after V1.startMic o1 w)) o2)
      as (_ & Hd & Hn).
    apply fresh_twice; [apply G; [exact H1|apply V1_startMic_granted]
                       |exact Hd|exact Hn
                       |apply G; [exact H3|apply V1_startMic_granted]].
  - pose proof (@wp_after _ _ _ _
                  (V2_stopMic_spec (after V2.startMic o1 w)) o2)
      as (_ & Hs & _ & _ & Hn).
    apply fresh_twice; [apply G; [exact H1|apply V2_startMic_granted]
                       |apply Hs|exact Hn
                       |apply G; [exact H3|apply V2_startMic_granted]].
  - pose proof (@wp_after _ _ _ _
                  (V2_stopMic_spec (after V4.startMic o1 w)) o2)
      as (_ & Hs & _ & _ & Hn).
    apply fresh_twice; [apply G; [exact H1|apply V4_startMic_granted]
                       |apply Hs|exact Hn
                       |apply G; [exact H3|apply V4_startMic_granted]].
Qed.

Lemma C7_startMic_stopMic_startMic_witness :
  grants_capture resolving /\
  round_trip (init (Some canvas333) 1)
    (after V2.startMic resolving (init (Some canvas333) 1))
    (after V2.stopMic resolving
       (after V2.startMic resolving (init (Some canvas333) 1)))
    (after V2.startMic resolving
       (after V2.stopMic resolving
          (after V2.startMic resolving (init (Some canvas333) 1)))).
Proof.
  split; [intros i; reflexivity|].
  refine (proj1 (proj2 (@C7_startMic_stopMic_startMic resolving resolving
           resolving (init (Some canvas333) 1) _ _))); intros i; reflexivity.
Defined.
(** ** C3: from the microphone to a file *)

(** C3.  When [startFilePlayback] of V2, or [startPreset] of V4, is called
    while the component holds the microphone stream [s], the run logs
    [TrackStop s] before it begins any playback ([start(0)] or [play()]),
    and [s] is not live when the run ends, whatever the browser answers. *)
Theorem C3_tracks_stop_before_playback
  (f : File) (t : Track) (o : Oracle) (s : nat) (w : World) :
  micStreamRef (refs w) = Some s ->
  released_before_playback s w (after (V2.startFilePlayback f) o w) /\
  released_before_playback s w (after (V4.startPreset t) o w).
Proof.
  intros H. split.
  - apply (@wp_after _ _ _ _ (V2_startFilePlayback_order f w H) o).
  - apply (@wp_after _ _ _ _ (V4_startPreset_order t w H) o).
Qed.

Lemma C3_tracks_stop_before_playback_witness :
  micStreamRef (refs mic_on) = Some 0 /\
  (released_before_playback 0 mic_on
     (after (V2.startFilePlayback song) resolving mic_on) /\
   released_before_playback 0 mic_on
     (after (V4.startPreset track1) resolving mic_on)) /\
  filter is_playback_start
    (log (host (after (V2.startFilePlayback song) resolving mic_on)))
  = [SourceStart 8] /\
  filter is_playback_start
    (log (host (after (V4.startPreset track1) resolving mic_on)))
  = [Play].
Proof.
  split; [reflexivity|]. split.
  - apply (@C3_tracks_stop_before_playback song track1 resolving 0 mic_on).
    reflexivity.
  - split; vm_compute; reflexivity.
Defined.
(** ** C4: the end-of-track hook *)

(** C4 fails in V2.  [stopFilePlayback] stops the source and leaves its
    [onended] handler in place, whatever the world and the browser's
    answers; so the [ended] event that the stopped source still owes runs
    the handler after the manual stop.  In the run [stop_then_ended] the
    microphone has been started by then: the handler cancels its render
    loop and closes its context, and the component is left in mode [mic]
    with a live stream and no analyser. *)
Theorem C4_V2_hook_survives_manual_stop :
  (forall o w,
     hooked (host (after V2.stopFilePlayback o w)) = hooked (host w) /\
     liveSources (host (after V2.stopFilePlayback o w))
     = liveSources (host w)) /\
  hooked (host (world file_on)) = [2] /\
  mode (ui (world (run V2Loop.component stop_then_ended file_on))) = mic /\
  isMicOn (ui (world (run V2Loop.component stop_then_ended file_on))) = true /\
  liveStreams (host (world (run V2Loop.component stop_then_ended file_on)))
  = [5] /\
  analyserRef (refs (world (run V2Loop.component stop_then_ended file_on)))
  = None /\
  frames (host (world (run V2Loop.component stop_then_ended file_on))) = [] /\
  tasks (run V2Loop.component stop_then_ended file_on) = [].
Proof.
  split.
  - intros o w.
    destruct (@wp_after _ _ _ _ (V2_stopFilePlayback_spec w) o)
      as (_ & _ & _ & _ & _ & _ & Hh & Hl).
    split; assumption.
  - repeat split; vm_compute; reflexivity.
Qed.

(** ** C2: the [busy] flag *)




(** ** C1: one source, one frame *)



(** * Further properties of the code *)

(** ** Teardown *)

Lemma teardownContext_spec w :
  wp teardownContext
     (fun r w' =>
        r = Ok tt /\ pipeline_released w' /\
        log (host w') =
          log (host w) ++ teardown_requests (audioCtxRef (refs w)) /\
        ui w' = ui w /\
        rafIdRef (refs w') = rafIdRef (refs w) /\
        micSourceRef (refs w') = micSourceRef (refs w) /\
        micStreamRef (refs w') = micStreamRef (refs w) /\
        fileSourceRef (refs w') = fileSourceRef (refs w) /\
        mediaElSourceRef (refs w') = mediaElSourceRef (refs w) /\
        edges (host w') = edges (host w)) w.
Proof.
  open_world w. unfold wp, pipeline_released.
  wp_run (@answers_monotone any_reply).
  all: repeat split; cbn [teardown_requests];
    rewrite <- ?app_assoc, ?app_nil_r; reflexivity.
Qed.

(** [teardownContext] (V2 and V4) cannot fail and cannot skip its cleanup:
    whether [suspend()] and [close()] resolve or reject, it returns
    normally with the context, the analyser and the buffer unreferenced,
    having asked the context it found to suspend and then to close, once
    each; with no context it asks nothing.  It touches neither the
    sources, the stream, the connections nor the UI state. *)
Theorem teardownContext_always_releases (o : Oracle) (w : World) :
  outcome teardownContext o w = Ok tt /\
  pipeline_released (after teardownContext o w) /\
  log (host (after teardownContext o w)) =
    log (host w) ++ teardown_requests (audioCtxRef (refs w)) /\
  ui (after teardownContext o w) = ui w /\
  micStreamRef (refs (after teardownContext o w)) = micStreamRef (refs w) /\
  micSourceRef (refs (after teardownContext o w)) = micSourceRef (refs w) /\
  fileSourceRef (refs (after teardownContext o w)) = fileSourceRef (refs w) /\
  edges (host (after teardownContext o w)) = edges (host w).
Proof.
  destruct (@wp_after _ _ _ _ (teardownContext_spec w) o)
    as (H1 & H2 & H3 & H4 & _ & H6 & H7 & H8 & _ & H10).
  repeat split; try assumption; apply H2.
Qed.

(** A frame callback that runs after a teardown paints nothing, samples
    nothing and schedules nothing: [draw] returns at its guard because the
    analyser is gone.  So a callback that the browser had already
    dequeued when [stopMic] (V2, V4), [stopFilePlayback] (V2),
    [stopPresetPlayback] (V4) or an end-of-track handler cancelled the loop
    cannot restart it. *)
Theorem draw_after_teardown_is_inert (o o' : Oracle) (w : World) :
  after draw o' (after V2.stopMic o w) = after V2.stopMic o w /\
  after draw o' (after V2.stopFilePlayback o w)
  = after V2.stopFilePlayback o w /\
  after draw o' (after V4.stopPresetPlayback o w)
  = after V4.stopPresetPlayback o w /\
  after draw o' (after teardownContext o w) = after teardownContext o w.
Proof.
  destruct (@wp_after _ _ _ _ (V2_stopMic_spec w) o) as (_ & Hm & _).
  destruct (@wp_after _ _ _ _ (V2_stopFilePlayback_spec w) o)
    as (_ & Hf & _).
  destruct (@wp_after _ _ _ _ (V4_stopPresetPlayback_spec w) o)
    as (_ & Hp & _).
  destruct (@wp_after _ _ _ _ (teardownContext_spec w) o) as (_ & Ht & _).
  repeat split; apply draw_idle; right; left.
  - apply Hm.
  - apply Hf.
  - apply Hp.
  - apply Ht.
Qed.
(** ** The end-of-track hook of the <audio> element *)

Lemma at_rest_no_end w : element_at_rest w -> element_ended w = None.
Proof.
  intros H. unfold element_ended.
  destruct (audioElRef (refs w)) as [el|] eqn:E; [|reflexivity].
  destruct (H el E) as (_ & -> & _). reflexivity.
Qed.

Ltac trace_goal :=
  unfold unhooked_then_paused; cbn [log host];
  rewrite <- ?app_assoc; cbn [app];
  do 2 eexists; reflexivity.

Lemma V3_stopPresetPlayback_rest w :
  wp V3.stopPresetPlayback
     (fun r w' =>
        r = Ok tt /\ element_at_rest w' /\
        (audioElRef (refs w) <> None ->
         unhooked_then_paused (log (host w)) (log (host w')))) w.
Proof.
  open_world w. unfold wp, element_at_rest.
  wp_run (@answers_monotone any_reply).
  all: split; [reflexivity|split].
  all: try (intros el H; first [discriminate H
                               |injection H as <-; repeat split]).
  all: try (intros H; now elim H).
  all: intros _; trace_goal.
Qed.

Lemma V4_stopPresetPlayback_trace w :
  wp V4.stopPresetPlayback
     (fun r w' =>
        audioElRef (refs w) <> None ->
        unhooked_then_paused (log (host w)) (log (host w'))) w.
Proof.
  open_world w. unfold wp.
  wp_run (@answers_monotone any_reply).
  all: try (intros H; now elim H).
  all: intros _; trace_goal.
Qed.

(** [stopPresetPlayback] of V3 and V4 takes the [onended] hook off the
    element before it pauses it, and leaves the element paused with no
    hook; so an [ended] event after a manual stop finds nothing to run and
    changes nothing.  (V2's [stopFilePlayback] does not: see C4.) *)
Theorem stopPresetPlayback_silences_the_element
  (o : Oracle) (w : World) (ts : list Task) :
  (audioElRef (refs w) <> None ->
   unhooked_then_paused (log (host w))
     (log (host (after V3.stopPresetPlayback o w))) /\
   unhooked_then_paused (log (host w))
     (log (host (after V4.stopPresetPlayback o w)))) /\
  step V3Loop.component ElementEnded
       {| world := after V3.stopPresetPlayback o w; tasks := ts |}
  = {| world := after V3.stopPresetPlayback o w; tasks := ts |} /\
  step V4Loop.component ElementEnded
       {| world := after V4.stopPresetPlayback o w; tasks := ts |}
  = {| world := after V4.stopPresetPlayback o w; tasks := ts |}.
Proof.
  destruct (@wp_after _ _ _ _ (V3_stopPresetPlayback_rest w) o)
    as (_ & H3 & T3).
  destruct (@wp_after _ _ _ _ (V4_stopPresetPlayback_spec w) o)
    as (_ & H4 & _).
  pose proof (@wp_after _ _ _ _ (V4_stopPresetPlayback_trace w) o) as T4.
  split; [intros H; split; [apply T3, H|apply T4, H]|].
  split; cbn [step world tasks]; rewrite at_rest_no_end; auto.
  apply H4.
Qed.

Lemma V2_onended_handler_spec w :
  wp V2.onended_handler
     (fun r w' =>
        r = Ok tt /\ ended w w' /\ fileSourceRef (refs w') = None /\
        fileName (ui w') = fileName (ui w)) w.
Proof.
  open_world w. unfold wp, ended, pipeline_released.
  wp_run (@answers_monotone any_reply).
  all: repeat split; try reflexivity; blank_goal.
Qed.

Lemma V4_onended_handler_spec w :
  wp V4.onended_handler
     (fun r w' =>
        r = Ok tt /\ ended w w' /\ mediaElSourceRef (refs w') = None /\
        currentTrackId (ui w') = currentTrackId (ui w)) w.
Proof.
  open_world w. unfold wp, ended, pipeline_released.
  wp_run (@answers_monotone any_reply).
  all: repeat split; try reflexivity; blank_goal.
Qed.

Lemma V3_onended_handler_spec w :
  wp V3.onended_handler
     (fun r w' =>
        r = Ok tt /\ rafIdRef (refs w') = None /\ blanked w' /\
        isFilePlaying (ui w') = false /\ mode (ui w') = idle /\
        currentTrackId (ui w') = None /\
        analyserRef (refs w') = analyserRef (refs w) /\
        audioCtxRef (refs w') = audioCtxRef (refs w)) w.
Proof.
  open_world w. unfold wp.
  wp_run (@answers_monotone any_reply).
  all: repeat split; try reflexivity; blank_goal.
Qed.

(** The end-of-track handlers.  In V2 and V4 the handler cancels the loop,
    tears the pipeline down whatever [suspend()] and [close()] answer,
    blanks the canvas and takes the mode from [file] to [idle], leaving any
    other mode alone; but V2's leaves [fileName] and V4's leaves
    [currentTrackId] as they were, where the manual stops clear them.
    V3's handler keeps the shared context and analyser, clears
    [currentTrackId], and sets the mode to [idle] whatever it was. *)
Theorem onended_handlers (o : Oracle) (w : World) :
  (outcome V2.onended_handler o w = Ok tt /\
   ended w (after V2.onended_handler o w) /\
   fileSourceRef (refs (after V2.onended_handler o w)) = None /\
   fileName (ui (after V2.onended_handler o w)) = fileName (ui w)) /\
  (outcome V4.onended_handler o w = Ok tt /\
   ended w (after V4.onended_handler o w) /\
   mediaElSourceRef (refs (after V4.onended_handler o w)) = None /\
   currentTrackId (ui (after V4.onended_handler o w))
   = currentTrackId (ui w)) /\
  (outcome V3.onended_handler o w = Ok tt /\
   mode (ui (after V3.onended_handler o w)) = idle /\
   isFilePlaying (ui (after V3.onended_handler o w)) = false /\
   currentTrackId (ui (after V3.onended_handler o w)) = None /\
   rafIdRef (refs (after V3.onended_handler o w)) = None /\
   blanked (after V3.onended_handler o w) /\
   analyserRef (refs (after V3.onended_handler o w)) = analyserRef (refs w) /\
   audioCtxRef (refs (after V3.onended_handler o w))
   = audioCtxRef (refs w)).
Proof.
  pose proof (@wp_after _ _ _ _ (V2_onended_handler_spec w) o) as H2.
  pose proof (@wp_after _ _ _ _ (V4_onended_handler_spec w) o) as H4.
  destruct (@wp_after _ _ _ _ (V3_onended_handler_spec w) o)
    as (A & B & C & D & E & F & G & H).
  split; [exact H2|]. split; [exact H4|].
  repeat split; assumption.
Qed.
(** ** V3: the [busy] flag and the error message *)

Lemma no_playback_in_clear c :
  filter is_playback_start (clearCanvas_events c) = [].
Proof. destruct c as [c|]; cbn; [destruct (has2d c)|]; reflexivity. Qed.

Lemma no_playback_in_bars bs :
  filter is_playback_start (flat_map bar_events bs) = [].
Proof. induction bs as [|b bs IH]; cbn; [reflexivity|exact IH]. Qed.

Lemma no_playback_in_draw w :
  filter is_playback_start (draw_events w) = [].
Proof.
  unfold draw_events.
  destruct (canvasRef (refs w)), (dataArrayRef (refs w)); try reflexivity.
  cbn. apply no_playback_in_bars.
Qed.

(** The playbacks of a run, counted along its trace. *)
Ltac count_playbacks :=
  unfold playbacks; cbn [log host];
  repeat rewrite filter_app; repeat rewrite length_app;
  rewrite ?no_playback_in_clear, ?no_playback_in_draw;
  repeat match goal with
         | |- context [match ?x with _ => _ end] => destruct x
         end;
  rewrite ?no_playback_in_clear, ?no_playback_in_draw;
  cbn; lia.



Lemma V3_startPreset_played t w :
  wpg (answers played) (V3.startPreset t)
      (fun r w' =>
         audioCtxRef (refs w) <> None -> audioElRef (refs w) <> None ->
         busy (ui w) = false ->
         mode (ui w') = file /\ isFilePlaying (ui w') = true /\
         currentTrackId (ui w') = Some (id t) /\
         error (ui w') = error (ui w) /\
         playbacks w' = S (playbacks w) /\
         exists el, audioElRef (refs w') = Some el /\
                    src el = url t /\ onended el = true) w.
Proof.
  open_world w.
  wp_run (@answers_monotone played); try discriminate.
  all: try (intros H; now elim H).
  all: try (intros _ H; now elim H).
  all: try (intros _ _ H; cbn in H; congruence).
  all: intros _ _ _; repeat split; try (eexists; repeat split).
  all: count_playbacks.
Qed.

Lemma V3_startPreset_play_failed e t w :
  wpg (answers (play_failed e)) (V3.startPreset t)
      (fun r w' =>
         audioCtxRef (refs w) <> None -> audioElRef (refs w) <> None ->
         busy (ui w) = false ->
         mode (ui w') = idle /\ isFilePlaying (ui w') = false /\
         currentTrackId (ui w') = None /\ busy (ui w') = false /\
         error (ui w') = Some (message_or e "Failed to play track.") /\
         (can_draw w -> loop_running w')) w.
Proof.
  open_world w.
  wp_run (@answers_monotone (play_failed e)); try discriminate.
  all: try (intros H; now elim H).
  all: try (intros _ H; now elim H).
  all: try (intros _ _ H; cbn in H; congruence).
  all: intros _ _ _; repeat split.
  all: unfold can_draw, loop_running; cbn.
  all: intros ((c & Hc & H2d) & Ha & Hd).
  all: try (now elim Ha).
  all: try (now elim Hd).
  all: try discriminate Hc.
  all: first [injection Hc as <-|subst canvasRef0].
  all: destruct dataArrayRef0; [|now elim Hd].
  all: destruct c; cbn in H2d; subst.
  all: unfold draw_ready, fit, paint; cbn.
  all: eexists; split; [reflexivity|].
  all: apply in_or_app; right; left; reflexivity.
Qed.



(** V3's [startPreset] never clears the error message.  When [play()]
    resolves it ends in mode [file], playing, with the track's id and url
    set, the hook on, one playback begun, and [error] exactly as it was:
    a message left by an earlier failure stays on screen over a track
    that plays. *)
Theorem V3_startPreset_keeps_the_error
  (t : Track) (o : Oracle) (w : World) :
  audioCtxRef (refs w) <> None -> audioElRef (refs w) <> None ->
  busy (ui w) = false -> plays o ->
  mode (ui (after (V3.startPreset t) o w)) = file /\
  isFilePlaying (ui (after (V3.startPreset t) o w)) = true /\
  currentTrackId (ui (after (V3.startPreset t) o w)) = Some (id t) /\
  error (ui (after (V3.startPreset t) o w)) = error (ui w) /\
  playbacks (after (V3.startPreset t) o w) = S (playbacks w) /\
  exists el, audioElRef (refs (after (V3.startPreset t) o w)) = Some el /\
             src el = url t /\ onended el = true.
Proof.
  intros Hc He Hb Ho.
  assert (Hp : forall h i, played h (o h i)).
  { intros [] i; cbn; auto. }
  exact (@wpg_exec _ played (V3.startPreset t) _ w
           (V3_startPreset_played t w) o Hp 0 Hc He Hb).
Qed.

Lemma V3_startPreset_keeps_the_error_witness :
  audioCtxRef (refs mic_refused3) <> None /\
  audioElRef (refs mic_refused3) <> None /\
  busy (ui mic_refused3) = false /\ plays resolving /\
  error (ui mic_refused3) = Some mic_fallback /\
  mode (ui (after (V3.startPreset track1) resolving mic_refused3)) = file /\
  error (ui (after (V3.startPreset track1) resolving mic_refused3))
  = error (ui mic_refused3).
Proof.
  assert (Hc : audioCtxRef (refs mic_refused3) <> None)
    by (vm_compute; discriminate).
  assert (He : audioElRef (refs mic_refused3) <> None)
    by (vm_compute; discriminate).
  assert (Ho : plays resolving) by (intros i; reflexivity).
  assert (Hb : busy (ui mic_refused3) = false)
    by (vm_compute; reflexivity).
  split; [exact Hc|]. split; [exact He|]. split; [exact Hb|].
  split; [exact Ho|]. split; [vm_compute; reflexivity|].
  destruct (@V3_startPreset_keeps_the_error track1 resolving mic_refused3
              Hc He Hb Ho) as (H1 & _ & _ & H4 & _).
  split; [exact H1|exact H4].
Defined.

(** When [play()] rejects with [e], V3's [startPreset] shows the message
    of [e], or "Failed to play track." when [e] carries none, and goes to
    [idle] with [busy] down; but its [catch] does not cancel the render
    loop that [draw()] started before [play()]: if [draw] could run, a
    frame callback is still scheduled when the run ends. *)
Theorem V3_startPreset_failure_leaves_the_loop
  (e : JsError) (t : Track) (o : Oracle) (w : World) :
  audioCtxRef (refs w) <> None -> audioElRef (refs w) <> None ->
  busy (ui w) = false -> fails_to_play e o ->
  mode (ui (after (V3.startPreset t) o w)) = idle /\
  isFilePlaying (ui (after (V3.startPreset t) o w)) = false /\
  currentTrackId (ui (after (V3.startPreset t) o w)) = None /\
  busy (ui (after (V3.startPreset t) o w)) = false /\
  error (ui (after (V3.startPreset t) o w))
  = Some (message_or e "Failed to play track.") /\
  (can_draw w -> loop_running (after (V3.startPreset t) o w)).
Proof.
  intros Hc He Hb Ho.
  assert (Hp : forall h i, play_failed e h (o h i)).
  { intros [] i; cbn; auto. }
  exact (@wpg_exec _ (play_failed e) (V3.startPreset t) _ w
           (V3_startPreset_play_failed e t w) o Hp 0 Hc He Hb).
Qed.

Lemma V3_startPreset_failure_leaves_the_loop_witness :
  audioCtxRef (refs mic_live3) <> None /\
  audioElRef (refs mic_live3) <> None /\
  busy (ui mic_live3) = false /\
  fails_to_play play_error (failing_play play_error) /\
  can_draw mic_live3 /\
  mode (ui (after (V3.startPreset track1) (failing_play play_error) mic_live3))
  = idle /\
  loop_running
    (after (V3.startPreset track1) (failing_play play_error) mic_live3).
Proof.
  assert (Hc : audioCtxRef (refs mic_live3) <> None)
    by (vm_compute; discriminate).
  assert (He : audioElRef (refs mic_live3) <> None)
    by (vm_compute; discriminate).
  assert (Ho : fails_to_play play_error (failing_play play_error))
    by (intros i; reflexivity).
  assert (Hd : can_draw mic_live3).
  { split; [eexists; split; vm_compute; reflexivity|].
    split; vm_compute; discriminate. }
  assert (Hb : busy (ui mic_live3) = false) by (vm_compute; reflexivity).
  split; [exact Hc|]. split; [exact He|]. split; [exact Hb|].
  split; [exact Ho|]. split; [exact Hd|].
  destruct (@V3_startPreset_failure_leaves_the_loop play_error track1
              (failing_play play_error) mic_live3 Hc He Hb Ho)
    as (H1 & _ & _ & _ & _ & H6).
  split; [exact H1|exact (H6 Hd)].
Defined.
(** ** V4: the <audio> element is attached once *)







Lemma paint_paintable (c : option Canvas) w :
  (exists c0, c = Some c0 /\ has2d c0 = true) ->
  canvasRef (refs w) =
    match c with
    | Some canvas => Some (if has2d canvas then paint Black canvas else canvas)
    | None => None
    end ->
  paintable w.
Proof.
  intros (c0 & -> & H) E. exists (paint Black c0). rewrite E, H.
  split; [reflexivity|exact H].
Qed.

Lemma V2_stopMic_frame w :
  wp V2.stopMic
     (fun r w' =>
        r = Ok tt /\ playbacks w' = playbacks w /\
        audioElRef (refs w') = audioElRef (refs w) /\
        (paintable w -> paintable w')) w.
Proof.
  open_world w. unfold wp.
  wp_run (@answers_monotone any_reply).
  all: repeat split; try count_playbacks.
  all: intros H; eapply paint_paintable; [exact H|reflexivity].
Qed.

Lemma V4_stopPresetPlayback_frame w :
  wp V4.stopPresetPlayback
     (fun r w' =>
        r = Ok tt /\ playbacks w' = playbacks w /\
        (paintable w -> paintable w') /\
        (~ element_attached w -> ~ element_attached w')) w.
Proof.
  open_world w. unfold wp, element_attached.
  wp_run (@answers_monotone any_reply).
  all: split; [reflexivity|split; [count_playbacks|split]].
  all: try (intros H; eapply paint_paintable; [exact H|reflexivity]).
  all: cbn; intros Hn (el & Hel & Hat); apply Hn; try discriminate Hel.
  all: injection Hel as <-; eexists; split; [reflexivity|exact Hat].
Qed.

Lemma attached_or_not (el : option AudioEl) :
  (forall e, el = Some e -> attached e = false) \/
  (exists e, el = Some e /\ attached e = true).
Proof.
  destruct el as [e|]; [|left; discriminate].
  destruct (attached e) eqn:E; [right; eauto|].
  left. intros e' H. injection H as <-. exact E.
Qed.

(** [startPreset] after the two stops that open it: the world [v] it has
    reached holds an element that is not attached, or none. *)
Ltac first_preset w Hn :=
  unfold V4.startPreset;
  eapply wpg_seq; [apply wp_any, V2_stopMic_frame|];
  let r := fresh "r" in
  let u := fresh "u" in
  let v := fresh "v" in
  let Hpu := fresh "Hpu" in
  let Heu := fresh "Heu" in
  let Hcu := fresh "Hcu" in
  let Hpv := fresh "Hpv" in
  let Hcv := fresh "Hcv" in
  let Hev := fresh "Hev" in
  let Hv := fresh "Hv" in
  intros r u (-> & Hpu & Heu & Hcu); cbv beta iota;
  eapply wpg_seq; [apply wp_any, V4_stopPresetPlayback_frame|];
  intros r v (-> & Hpv & Hcv & Hev); cbv beta iota;
  assert (Hv : ~ element_attached v);
  [ apply Hev; intros (el & Hel & Hat); apply Hn; exists el;
    split; [congruence|exact Hat]
  | assert (Hp : playbacks v = playbacks w) by congruence;
    assert (Hc : paintable w -> paintable v) by auto;
    clear Hpu Heu Hcu Hpv Hcv Hev Hn; revert Hp Hc; generalize w;
    clear w u;
    let w0 := fresh "w0" in
    intros w0 Hp Hc ].

Ltac unattached v Hv :=
  open_world v;
  match goal with
  | x : option AudioEl |- _ =>
      destruct (attached_or_not x) as [Ha|Ha]; [|now elim Hv];
      clear Hv;
      destruct x as [[s p ct m oe at0]|];
      [pose proof (Ha _ eq_refl) as E; cbn in E; subst at0|]; clear Ha
  end.

Ltac loop_goal :=
  unfold paintable, loop_running; cbn;
  let c := fresh "c" in
  let Hc := fresh "Hc" in
  let H2d := fresh "H2d" in
  intros (c & Hc & H2d); subst;
  destruct c; cbn in H2d; subst;
  unfold draw_ready, fit, paint; cbn;
  eexists; split; [reflexivity|];
  apply in_or_app; right; left; reflexivity.

Lemma V4_startPreset_played t w :
  ~ element_attached w ->
  wpg (answers played) (V4.startPreset t)
      (fun r w' => r = Ok tt /\ preset_playing t w w') w.
Proof.
  intros Hn. first_preset w Hn.
  eapply wpg_mono with (Q := fun r w' => r = Ok tt /\ preset_playing t v w');
    [apply answers_monotone| |].
  - cbv beta. intros r u (Hr & H1 & H2 & H3 & H4 & H5 & H6 & H7 & H8).
    split; [exact Hr|]. repeat split; try assumption; [congruence|auto].
  - clear Hp Hc w0. unattached v Hv. all: unfold preset_playing.
    all: wp_run (@answers_monotone played); try discriminate.
    all: repeat split; try count_playbacks.
    all: try (eexists; repeat split; reflexivity).
    all: try (do 3 eexists; repeat split; try reflexivity;
              apply In_link; first [right; reflexivity
                                   |left; apply In_link; right; reflexivity]).
    all: loop_goal.
Qed.

Lemma V4_startPreset_play_failed e t w :
  ~ element_attached w ->
  wpg (answers (play_failed e)) (V4.startPreset t)
      (fun r w' => r = Ok tt /\ preset_failed e w w') w.
Proof.
  intros Hn. first_preset w Hn.
  eapply wpg_mono
    with (Q := fun r w' => r = Ok tt /\ preset_failed e v w');
    [apply answers_monotone| |].
  - cbv beta. intros r u (Hr & H1 & H2 & H3 & H4 & H5 & H6 & H7).
    split; [exact Hr|]. repeat split; try assumption. auto.
  - clear Hp Hc w0. unattached v Hv. all: unfold preset_failed.
    all: wp_run (@answers_monotone (play_failed e)); try discriminate.
    all: repeat split; try discriminate.
    all: loop_goal.
Qed.

(** The first preset of V4.  From a world whose <audio> element feeds no
    source yet, [startPreset] with [play()] resolving ends in mode [file]
    with the error cleared, the track's id and url set, the hook on, the
    element's source connected to a new analyser and the analyser to the
    destination, one playback begun and, if there is a canvas to paint
    on, the render loop scheduled.  With [play()] rejecting, the message
    is shown and the mode is [idle], but the [catch] neither cancels the
    render loop nor releases the context and analyser it made. *)
Theorem V4_first_preset
  (e : JsError) (t : Track) (o o' : Oracle) (w : World) :
  ~ element_attached w -> plays o -> fails_to_play e o' ->
  preset_playing t w (after (V4.startPreset t) o w) /\
  preset_failed e w (after (V4.startPreset t) o' w).
Proof.
  intros Hn Ho Ho'.
  assert (Hp : forall h i, played h (o h i)) by (intros [] i; cbn; auto).
  assert (Hf : forall h i, play_failed e h (o' h i))
    by (intros [] i; cbn; auto).
  split.
  - apply (@wpg_exec _ played (V4.startPreset t) _ w
             (V4_startPreset_played t Hn) o Hp 0).
  - apply (@wpg_exec _ (play_failed e) (V4.startPreset t) _ w
             (V4_startPreset_play_failed e t Hn) o' Hf 0).
Qed.

Lemma V4_first_preset_witness :
  ~ element_attached (init (Some canvas333) 1) /\
  plays resolving /\ fails_to_play play_error (failing_play play_error) /\
  paintable (init (Some canvas333) 1) /\
  preset_playing track1 (init (Some canvas333) 1)
    (after (V4.startPreset track1) resolving (init (Some canvas333) 1)) /\
  preset_failed play_error (init (Some canvas333) 1)
    (after (V4.startPreset track1) (failing_play play_error)
           (init (Some canvas333) 1)).
Proof.
  assert (Hn : ~ element_attached (init (Some canvas333) 1)).
  { intros (el & Hel & _). discriminate Hel. }
  assert (Ho : plays resolving) by (intros i; reflexivity).
  assert (Hf : fails_to_play play_error (failing_play play_error))
    by (intros i; reflexivity).
  split; [exact Hn|]. split; [exact Ho|]. split; [exact Hf|].
  split; [exists canvas333; split; reflexivity|].
  exact (@V4_first_preset play_error track1 resolving
           (failing_play play_error) (init (Some canvas333) 1) Hn Ho Hf).
Defined.
(** ** V2: playing an uploaded file *)

Lemma V2_stopMic_full w :
  wp V2.stopMic
     (fun r u =>
        (r = Ok tt /\ mic_stopped u /\
         fileSourceRef (refs u) = fileSourceRef (refs w) /\
         mediaElSourceRef (refs u) = mediaElSourceRef (refs w) /\
         nextId (host u) = nextId (host w)) /\
        (r = Ok tt /\ playbacks u = playbacks w /\
         audioElRef (refs u) = audioElRef (refs w) /\
         (paintable w -> paintable u)) /\
        fileName (ui u) = fileName (ui w)) w.
Proof.
  apply wpg_and; [apply V2_stopMic_spec|].
  apply wpg_and; [apply V2_stopMic_frame|].
  open_world w. wp_run (@answers_monotone any_reply); reflexivity.
Qed.

(** [startFilePlayback] after the [stopMic] that opens it. *)
Ltac after_stopMic w :=
  unfold V2.startFilePlayback;
  eapply wpg_seq; [apply wp_any, V2_stopMic_full|];
  let r := fresh "r" in
  let v := fresh "v" in
  intros r v ((-> & Hs & _) & (_ & Hp & _ & Hc) & Hn); cbv beta iota;
  destruct Hs as (Hraf & Hctx & Han & Hda & Hms & Hmt & _ & _ & _).

Lemma V2_startFilePlayback_decoded f w :
  wpg (answers decoded) (V2.startFilePlayback f)
      (fun r w' => r = Ok tt /\ file_playing f w w') w.
Proof.
  after_stopMic w.
  eapply wpg_mono
    with (Q := fun r w' => r = Ok tt /\ file_playing f v w');
    [apply answers_monotone| |].
  - cbv beta.
    intros r u (Hr & H1 & H2 & H3 & H4 & H5 & H6 & H7 & H8 & H9).
    split; [exact Hr|]. repeat split; try assumption; [congruence|auto].
  - clear Hp Hc Hn w. open_world v.
    cbn in Hraf, Hctx, Han, Hda, Hms, Hmt. subst.
    unfold file_playing.
    wp_run (@answers_monotone decoded); try discriminate.
    all: repeat split; try count_playbacks.
    all: try (do 3 eexists; repeat split; try reflexivity;
              first [ apply In_link; first
                        [right; reflexivity
                        |left; apply In_link; right; reflexivity]
                    | apply in_or_app; right; left; reflexivity ]).
    all: loop_goal.
Qed.

Ltac file_failed_goal ok :=
  unfold file_failed, pipeline_released;
  wp_run (@answers_monotone ok); try discriminate;
  repeat split; try discriminate; try count_playbacks; try blank_goal.

Lemma V2_startFilePlayback_undecodable e f w :
  wpg (answers (undecodable e)) (V2.startFilePlayback f)
      (fun r w' => r = Ok tt /\ file_failed e w w' /\
                   audioCtxRef (refs w') <> None /\
                   analyserRef (refs w') <> None) w.
Proof.
  after_stopMic w.
  eapply wpg_mono
    with (Q := fun r w' => r = Ok tt /\ file_failed e v w' /\
                           audioCtxRef (refs w') <> None /\
                           analyserRef (refs w') <> None);
    [apply answers_monotone| |].
  - cbv beta.
    intros r u (Hr & (H1 & H2 & H3 & H4 & H5 & H6 & H7 & H8 & H9) & Hx).
    split; [exact Hr|]. split; [|exact Hx].
    repeat split; try assumption; congruence.
  - clear Hp Hc Hn w. open_world v.
    cbn in Hraf, Hctx, Han, Hda, Hms, Hmt. subst.
    file_failed_goal (undecodable e).
Qed.

Lemma V2_startFilePlayback_unreadable e f w :
  wpg (answers (unreadable e)) (V2.startFilePlayback f)
      (fun r w' => r = Ok tt /\ file_failed e w w' /\
                   pipeline_released w') w.
Proof.
  after_stopMic w.
  eapply wpg_mono
    with (Q := fun r w' => r = Ok tt /\ file_failed e v w' /\
                           pipeline_released w');
    [apply answers_monotone| |].
  - cbv beta.
    intros r u (Hr & (H1 & H2 & H3 & H4 & H5 & H6 & H7 & H8 & H9) & Hx).
    split; [exact Hr|]. split; [|exact Hx].
    repeat split; try assumption; congruence.
  - clear Hp Hc Hn w. open_world v.
    cbn in Hraf, Hctx, Han, Hda, Hms, Hmt. subst.
    file_failed_goal (unreadable e).
Qed.

(** [startFilePlayback] of V2.  When the file is read and decoded it ends
    in mode [file] with the error cleared, the microphone released, the
    file's name shown, a buffer source connected to a new analyser and
    the analyser to the destination, started once, its [onended] hook on
    and, if there is a canvas to paint on, the render loop scheduled.
    When the file cannot be read or cannot be decoded, the error's
    message (or "Failed to play the selected audio file.") is shown, the
    mode is [idle], nothing is played, no frame is scheduled and the
    canvas is blank; [fileName] keeps its old value.  A decoding failure
    comes after the context and analyser were made, and the [catch] does
    not release them; a reading failure comes before. *)
Theorem V2_startFilePlayback_outcomes
  (e : JsError) (f : File) (o1 o2 o3 : Oracle) (w : World) :
  follows decoded o1 -> follows (undecodable e) o2 ->
  follows (unreadable e) o3 ->
  file_playing f w (after (V2.startFilePlayback f) o1 w) /\
  (file_failed e w (after (V2.startFilePlayback f) o2 w) /\
   audioCtxRef (refs (after (V2.startFilePlayback f) o2 w)) <> None /\
   analyserRef (refs (after (V2.startFilePlayback f) o2 w)) <> None) /\
  (file_failed e w (after (V2.startFilePlayback f) o3 w) /\
   pipeline_released (after (V2.startFilePlayback f) o3 w)).
Proof.
  intros H1 H2 H3. split; [|split].
  - apply (@wpg_exec _ decoded (V2.startFilePlayback f) _ w
             (V2_startFilePlayback_decoded f w) o1 H1 0).
  - apply (@wpg_exec _ (undecodable e) (V2.startFilePlayback f) _ w
             (V2_startFilePlayback_undecodable e f w) o2 H2 0).
  - apply (@wpg_exec _ (unreadable e) (V2.startFilePlayback f) _ w
             (V2_startFilePlayback_unreadable e f w) o3 H3 0).
Qed.

Lemma V2_startFilePlayback_outcomes_witness :
  follows decoded resolving /\
  follows (undecodable decode_error) (failing_decode decode_error) /\
  follows (unreadable decode_error) (failing_read decode_error) /\
  file_playing song mic_on
    (after (V2.startFilePlayback song) resolving mic_on) /\
  error (ui (after (V2.startFilePlayback song) (failing_decode decode_error)
                   mic_on))
  = Some "Unable to decode audio data"%string.
Proof.
  assert (H1 : follows decoded resolving) by (intros [] i; cbn; auto).
  assert (H2 : follows (undecodable decode_error)
                 (failing_decode decode_error))
    by (intros [] i; cbn; auto).
  assert (H3 : follows (unreadable decode_error)
                 (failing_read decode_error))
    by (intros [] i; cbn; auto).
  split; [exact H1|]. split; [exact H2|]. split; [exact H3|].
  destruct (@V2_startFilePlayback_outcomes decode_error song resolving
              (failing_decode decode_error) (failing_read decode_error)
              mic_on H1 H2 H3) as (A & (B & _) & _).
  split; [exact A|]. destruct B as (_ & _ & B & _). exact B.
Defined.
(** ** A start over a start *)

Lemma no_stop_in_clear s c :
  filter (is_stop_of s) (clearCanvas_events c) = [].
Proof. destruct c as [c|]; cbn; [destruct (has2d c)|]; reflexivity. Qed.

Lemma no_stop_in_bars s bs :
  filter (is_stop_of s) (flat_map bar_events bs) = [].
Proof. induction bs as [|b bs IH]; cbn; [reflexivity|exact IH]. Qed.

Lemma no_stop_in_draw s w : filter (is_stop_of s) (draw_events w) = [].
Proof.
  unfold draw_events.
  destruct (canvasRef (refs w)), (dataArrayRef (refs w)); try reflexivity.
  cbn. apply no_stop_in_bars.
Qed.

Ltac count_stops :=
  unfold stops_of; cbn [log host];
  repeat rewrite filter_app; repeat rewrite length_app;
  rewrite ?no_stop_in_clear, ?no_stop_in_draw;
  repeat match goal with
         | |- context [match ?x with _ => _ end] => destruct x
         end;
  rewrite ?no_stop_in_clear, ?no_stop_in_draw;
  cbn; lia.

(** The stops that open a start leave the microphone alone. *)
Lemma V2_stopFilePlayback_leaves_mic s w :
  wp V2.stopFilePlayback
     (fun r u => r = Ok tt /\
                 micStreamRef (refs u) = micStreamRef (refs w) /\
                 liveStreams (host u) = liveStreams (host w) /\
                 nextId (host u) = nextId (host w) /\
                 stops_of s u = stops_of s w) w.
Proof.
  open_world w. unfold wp.
  wp_run (@answers_monotone any_reply).
  all: repeat split; count_stops.
Qed.

Lemma V4_stopPresetPlayback_leaves_mic s w :
  wp V4.stopPresetPlayback
     (fun r u => r = Ok tt /\
                 micStreamRef (refs u) = micStreamRef (refs w) /\
                 liveStreams (host u) = liveStreams (host w) /\
                 nextId (host u) = nextId (host w) /\
                 stops_of s u = stops_of s w) w.
Proof.
  open_world w. unfold wp.
  wp_run (@answers_monotone any_reply).
  all: repeat split; count_stops.
Qed.

Ltac doubled_goal :=
  unfold doubled, orphaned; cbn [refs host micStreamRef liveStreams];
  repeat split;
  [ apply in_or_app; left; assumption
  | intros E; injection E; lia
  | count_stops
  | eexists; split; [reflexivity|split;
      [lia|apply in_or_app; right; left; reflexivity]] ].

Lemma V1_startMic_doubled s w :
  micStreamRef (refs w) = Some s -> In s (liveStreams (host w)) ->
  s < nextId (host w) ->
  wpg (answers granted) V1.startMic
      (fun r w' => r = Ok tt /\ doubled s w w') w.
Proof.
  intros Hs Hl Hn. open_world w. cbn in Hs, Hl, Hn. subst.
  wp_run granted_monotone; try discriminate.
  all: split; [reflexivity|doubled_goal].
Qed.

Ltac after_stop_doubled spec s w :=
  eapply wpg_seq; [apply wp_any, (spec s)|];
  let r := fresh "r" in
  let u := fresh "u" in
  intros r u (-> & Hus & Hul & Hun & Hup); cbv beta iota;
  eapply wpg_mono
    with (Q := fun r w' => r = Ok tt /\ doubled s u w');
  [ apply answers_monotone
  | cbv beta; intros ? ? (? & ? & (? & ?));
    split; [assumption|]; split; [assumption|];
    split; [congruence|assumption]
  | rewrite <- Hus, <- Hul, <- Hun in *; clear Hus Hul Hun Hup;
    generalize dependent u; clear w;
    let v := fresh "v" in
    intros v Hs Hl Hn; open_world v; cbn in Hs, Hl, Hn; subst;
    wp_run granted_monotone; try discriminate;
    (split; [reflexivity|doubled_goal]) ].

Lemma V2_startMic_doubled s w :
  micStreamRef (refs w) = Some s -> In s (liveStreams (host w)) ->
  s < nextId (host w) ->
  wpg (answers granted) V2.startMic
      (fun r w' => r = Ok tt /\ doubled s w w') w.
Proof.
  intros Hs Hl Hn. unfold V2.startMic.
  after_stop_doubled V2_stopFilePlayback_leaves_mic s w.
Qed.

Lemma V4_startMic_doubled s w :
  micStreamRef (refs w) = Some s -> In s (liveStreams (host w)) ->
  s < nextId (host w) ->
  wpg (answers granted) V4.startMic
      (fun r w' => r = Ok tt /\ doubled s w w') w.
Proof.
  intros Hs Hl Hn. unfold V4.startMic.
  after_stop_doubled V4_stopPresetPlayback_leaves_mic s w.
Qed.

(** [startMic] of V1, V2 and V4 never looks at the stream it holds.
    Called while [micStreamRef] holds a capturing stream [s], and granted
    capture again, it overwrites the reference: [s] keeps capturing, none
    of its tracks is stopped, a second stream captures beside it, and the
    component no longer refers to [s]. *)
Theorem startMic_over_a_live_stream (s : nat) (o : Oracle) (w : World) :
  micStreamRef (refs w) = Some s -> In s (liveStreams (host w)) ->
  s < nextId (host w) -> grants_capture o ->
  doubled s w (after V1.startMic o w) /\
  doubled s w (after V2.startMic o w) /\
  doubled s w (after V4.startMic o w).
Proof.
  intros Hs Hl Hn Ho.
  assert (Hg : forall h i, granted h (o h i)).
  { intros [] i; cbn; auto. }
  split; [|split].
  - exact (proj2 (@wpg_exec _ granted V1.startMic _ w
                    (@V1_startMic_doubled s w Hs Hl Hn) o Hg 0)).
  - exact (proj2 (@wpg_exec _ granted V2.startMic _ w
                    (@V2_startMic_doubled s w Hs Hl Hn) o Hg 0)).
  - exact (proj2 (@wpg_exec _ granted V4.startMic _ w
                    (@V4_startMic_doubled s w Hs Hl Hn) o Hg 0)).
Qed.

Lemma startMic_over_a_live_stream_witness :
  micStreamRef (refs mic_on) = Some 0 /\ In 0 (liveStreams (host mic_on)) /\
  0 < nextId (host mic_on) /\ grants_capture resolving /\
  doubled 0 mic_on (after V1.startMic resolving mic_on) /\
  doubled 0 mic_on (after V2.startMic resolving mic_on) /\
  doubled 0 mic_on (after V4.startMic resolving mic_on).
Proof.
  assert (Hs : micStreamRef (refs mic_on) = Some 0)
    by (vm_compute; reflexivity).
  assert (Hl : In 0 (liveStreams (host mic_on)))
    by (vm_compute; left; reflexivity).
  assert (Hn : 0 < nextId (host mic_on)) by (vm_compute; lia).
  assert (Ho : grants_capture resolving) by (intros i; reflexivity).
  split; [exact Hs|]. split; [exact Hl|]. split; [exact Hn|].
  split; [exact Ho|].
  exact (@startMic_over_a_live_stream 0 resolving mic_on Hs Hl Hn Ho).
Defined.
(** ** Unmounting while the browser asks for the microphone *)

Lemma never_monotone : monotone never.
Proof. intros h u K K' _ H. exact H. Qed.

Lemma wpg_finishes {A} (p : Async A) Q w :
  wpg never p Q w ->
  exists r w', advance p w = (Finished r, w') /\ Q r w'.
Proof.
  intros H. pose proof (wpg_advance _ _ _ _ H) as H'.
  destruct (advance p w) as [[r|h k] w']; [|contradiction].
  exists r, w'. split; [reflexivity|exact H'].
Qed.














(** ** Where the bars stand *)





(** ** Where the microphone goes *)

Lemma V3_startMic_monitored w :
  audioCtxRef (refs w) <> None -> analyserRef (refs w) <> None ->
  wpg (answers granted) V3.startMic
      (fun r w' => r = Ok tt /\ monitored w') w.
Proof.
  intros Hc Ha. open_world w. cbn in Hc, Ha.
  destruct audioCtxRef0 as [c|]; [|now elim Hc].
  destruct analyserRef0 as [a|]; [|now elim Ha].
  wp_run granted_monotone; try discriminate.
  all: split; [reflexivity|].
  all: unfold monitored; cbn [refs host micSourceRef analyserRef audioCtxRef
                              edges].
  all: do 3 eexists; repeat split; try reflexivity.
  all: apply In_link; first [right; reflexivity
                            |left; apply In_link; right; reflexivity].
Qed.

Ltac wired_goal :=
  unfold well_wired; cbn [host nextId edges];
  repeat first [apply bounded_unlink | apply bounded_unlink_opt];
  assumption.

Lemma V2_stopFilePlayback_wired w :
  well_wired w ->
  wp V2.stopFilePlayback (fun r u => r = Ok tt /\ well_wired u) w.
Proof.
  intros H. open_world w. unfold well_wired in H. cbn in H. unfold wp.
  wp_run (@answers_monotone any_reply).
  all: split; [reflexivity|wired_goal].
Qed.

Lemma V4_stopPresetPlayback_wired w :
  well_wired w ->
  wp V4.stopPresetPlayback (fun r u => r = Ok tt /\ well_wired u) w.
Proof.
  intros H. open_world w. unfold well_wired in H. cbn in H. unfold wp.
  wp_run (@answers_monotone any_reply).
  all: split; [reflexivity|wired_goal].
Qed.

Ltac analysed_goal H :=
  split; [reflexivity|];
  unfold analysed_only;
  cbn [refs host micSourceRef analyserRef edges node configure];
  do 2 eexists; split; [reflexivity|]; split; [reflexivity|];
  split; [apply In_link; right; reflexivity|];
  let y := fresh "y" in
  let Hy := fresh "Hy" in
  intros y Hy; apply In_link in Hy; destruct Hy as [Hy|Hy];
  [ apply H in Hy; cbn in Hy; lia
  | injection Hy; lia ].

Lemma V1_startMic_analysed w :
  well_wired w ->
  wpg (answers granted) V1.startMic
      (fun r w' => r = Ok tt /\ analysed_only w') w.
Proof.
  intros H. open_world w. unfold well_wired in H. cbn in H.
  wp_run granted_monotone; try discriminate.
  all: analysed_goal H.
Qed.

Ltac after_stop_analysed spec w H :=
  eapply wpg_seq; [apply wp_any, (spec w H)|];
  let r := fresh "r" in
  let u := fresh "u" in
  let Hu := fresh "Hu" in
  intros r u (-> & Hu); cbv beta iota;
  open_world' u; unfold well_wired in Hu; cbn in Hu;
  wp_run granted_monotone; try discriminate;
  analysed_goal Hu.

Lemma V2_startMic_analysed w :
  well_wired w ->
  wpg (answers granted) V2.startMic
      (fun r w' => r = Ok tt /\ analysed_only w') w.
Proof.
  intros H. unfold V2.startMic.
  after_stop_analysed V2_stopFilePlayback_wired w H.
Qed.

Lemma V4_startMic_analysed w :
  well_wired w ->
  wpg (answers granted) V4.startMic
      (fun r w' => r = Ok tt /\ analysed_only w') w.
Proof.
  intros H. unfold V4.startMic.
  after_stop_analysed V4_stopPresetPlayback_wired w H.
Qed.

(** Only V3 plays the microphone back.  Granted capture, [startMic] of
    V3 connects the microphone's source to the analyser and the analyser
    to the context's destination: what the microphone picks up comes out
    of the speakers.  [startMic] of V1, V2 and V4 connects the source to
    a new analyser that feeds nothing. *)
Theorem microphone_is_played_back_in_V3_only (o : Oracle) (w : World) :
  grants_capture o ->
  (audioCtxRef (refs w) <> None -> analyserRef (refs w) <> None ->
   monitored (after V3.startMic o w)) /\
  (well_wired w ->
   analysed_only (after V1.startMic o w) /\
   analysed_only (after V2.startMic o w) /\
   analysed_only (after V4.startMic o w)).
Proof.
  intros Ho.
  assert (Hg : forall h i, granted h (o h i)).
  { intros [] i; cbn; auto. }
  split.
  - intros Hc Ha.
    exact (proj2 (@wpg_exec _ granted V3.startMic _ w
                    (@V3_startMic_monitored w Hc Ha) o Hg 0)).
  - intros H. split; [|split].
    + exact (proj2 (@wpg_exec _ granted V1.startMic _ w
                      (@V1_startMic_analysed w H) o Hg 0)).
    + exact (proj2 (@wpg_exec _ granted V2.startMic _ w
                      (@V2_startMic_analysed w H) o Hg 0)).
    + exact (proj2 (@wpg_exec _ granted V4.startMic _ w
                      (@V4_startMic_analysed w H) o Hg 0)).
Qed.

Lemma microphone_is_played_back_in_V3_only_witness :
  grants_capture resolving /\
  monitored (after V3.startMic resolving mic_live3) /\
  analysed_only (after V2.startMic resolving (init (Some canvas333) 1)).
Proof.
  assert (Ho : grants_capture resolving) by (intros i; reflexivity).
  assert (Hc : audioCtxRef (refs mic_live3) <> None)
    by (vm_compute; discriminate).
  assert (Ha : analyserRef (refs mic_live3) <> None)
    by (vm_compute; discriminate).
  assert (Hw : well_wired (init (Some canvas333) 1))
    by (intros e []).
  split; [exact Ho|]. split.
  - exact (proj1 (@microphone_is_played_back_in_V3_only resolving mic_live3
                    Ho) Hc Ha).
  - exact (proj1 (proj2 (proj2
      (@microphone_is_played_back_in_V3_only resolving
         (init (Some canvas333) 1) Ho) Hw))).
Defined.
(** ** The resize listener *)

Lemma existsb_fresh n l :
  Forall (fun f => f < n) l -> existsb (Nat.eqb n) l = false.
Proof.
  induction 1 as [|x l Hx _ IH]; [reflexivity|]. cbn. rewrite IH.
  destruct (Nat.eqb_spec n x); [lia|reflexivity].
Qed.

Lemma remove_fresh n l :
  Forall (fun f => f < n) l -> remove Nat.eq_dec n l = l.
Proof.
  intros H. apply notin_remove. intros Hin.
  rewrite Forall_forall in H. apply H in Hin. lia.
Qed.

Lemma resize_effect1_cycle w win :
  registered_exist win ->
  let (q, cleanup) := resize_effect1 (w, win) in
  listeners (snd (cleanup q)) = listeners win ++ [nextFn win] /\
  registered_exist (snd (cleanup q)).
Proof.
  intros H. unfold resize_effect1, arrow, addEventListener,
    removeEventListener, registered_exist in *.
  cbn [fst snd listeners nextFn].
  rewrite (existsb_fresh H).
  assert (H' : Forall (fun f => f < S (nextFn win))
                 (listeners win ++ [nextFn win])).
  { apply Forall_app. split.
    - eapply Forall_impl; [|exact H]. cbn. intros; lia.
    - constructor; [lia|constructor]. }
  rewrite (remove_fresh H'). split; [reflexivity|].
  eapply Forall_impl; [|exact H']. cbn. intros; lia.
Qed.

Lemma resize_effect2_cycle w win :
  registered_exist win ->
  let (q, cleanup) := resize_effect2 (w, win) in
  listeners (snd (cleanup q)) = listeners win /\
  registered_exist (snd (cleanup q)).
Proof.
  intros H. unfold resize_effect2, arrow, addEventListener,
    removeEventListener, registered_exist in *.
  cbn [fst snd listeners nextFn].
  rewrite (existsb_fresh H), remove_app, (remove_fresh H).
  cbn. destruct (Nat.eq_dec (nextFn win) (nextFn win)); [|contradiction].
  rewrite app_nil_r. split; [reflexivity|].
  eapply Forall_impl; [|exact H]. cbn. intros; lia.
Qed.

(** V1 never removes its resize listener.  Its cleanup hands
    [removeEventListener] a function written in place, which is not the
    one that was added: after [n] mounts and unmounts, [n] more listeners
    are registered on the window, the old ones all still there.  V2, V3
    and V4 remove the function they added, and leave the window as it
    was. *)
Theorem V1_resize_listeners_pile_up (ws : list World) (win : Window) :
  registered_exist win ->
  (List.length (listeners (remount resize_effect1 ws win))
   = List.length (listeners win) + List.length ws /\
   forall f, In f (listeners win) ->
             In f (listeners (remount resize_effect1 ws win))) /\
  listeners (remount resize_effect2 ws win) = listeners win.
Proof.
  revert win. induction ws as [|w ws IH]; intros win H.
  - cbn. split; [split; [lia|auto]|reflexivity].
  - cbn [remount].
    pose proof (resize_effect1_cycle w H) as H1.
    pose proof (resize_effect2_cycle w H) as H2.
    destruct (resize_effect1 (w, win)) as [q1 c1].
    destruct (resize_effect2 (w, win)) as [q2 c2].
    destruct H1 as (E1 & R1), H2 as (E2 & R2).
    destruct (IH _ R1) as ((L1 & I1) & _).
    destruct (IH _ R2) as (_ & L2).
    split; [split|].
    + rewrite L1, E1, length_app. cbn. lia.
    + intros f Hf. apply I1. rewrite E1. apply in_or_app. left. exact Hf.
    + rewrite L2. exact E2.
Qed.

Lemma V1_resize_listeners_pile_up_witness :
  registered_exist {| listeners := []; nextFn := 0 |} /\
  List.length
    (listeners (remount resize_effect1
                  [init (Some canvas333) 1; init (Some canvas333) 1]
                  {| listeners := []; nextFn := 0 |})) = 2 /\
  listeners (remount resize_effect2
               [init (Some canvas333) 1; init (Some canvas333) 1]
               {| listeners := []; nextFn := 0 |}) = [].
Proof.
  assert (H : registered_exist {| listeners := []; nextFn := 0 |})
    by constructor.
  split; [exact H|].
  destruct (@V1_resize_listeners_pile_up
              [init (Some canvas333) 1; init (Some canvas333) 1]
              {| listeners := []; nextFn := 0 |} H) as ((L & _) & E).
  split; [exact L|exact E].
Defined.

(** ** The presets route *)

Lemma serve_store rs : forall ps,
  snd (Presets.serve rs ps) = ps ++ Presets.posted rs /\
  List.length (fst (Presets.serve rs ps)) = List.length rs.
Proof.
  induction rs as [|r rs IH]; intros ps; cbn.
  - rewrite app_nil_r. auto.
  - destruct r as [|[data|e]]; cbn.
    + destruct (IH ps) as (E & L).
      destruct (Presets.serve rs ps) as [outs s']. cbn in *.
      split; [exact E|now rewrite L].
    + destruct (IH (ps ++ [data])) as (E & L).
      destruct (Presets.serve rs (ps ++ [data])) as [outs s']. cbn in *.
      rewrite E, <- app_assoc. split; [reflexivity|now rewrite L].
    + destruct (IH ps) as (E & L).
      destruct (Presets.serve rs ps) as [outs s']. cbn in *.
      split; [exact E|now rewrite L].
Qed.

(** The presets route keeps what it is given.  Whatever requests a server
    process has answered, a [GET] returns the array of all the bodies
    that parsed, in the order they were posted, each as often as it was
    posted: nothing is checked, merged or removed.  A [POST] whose body
    does not parse fails and changes nothing; one whose body parses
    answers with that body and appends it. *)
Theorem presets_are_kept_as_posted (rs : list Presets.Request)
  (e : JsError) (data : Presets.Json) :
  let store := snd (Presets.serve rs Presets.presets0) in
  fst (Presets.GET store) = Presets.JArray (Presets.posted rs) /\
  snd (Presets.GET store) = store /\
  Presets.POST (Err e) store = (Err e, store) /\
  Presets.POST (Ok data) store =
    (Ok (Presets.JObject [("success"%string, Presets.JBool true);
                          ("data"%string, data)]),
     Presets.posted (rs ++ [Presets.Post (Ok data)])).
Proof.
  cbv zeta. destruct (serve_store rs Presets.presets0) as (E & _).
  unfold Presets.presets0 in *. cbn [app] in E. rewrite E.
  repeat split.
  cbn. unfold Presets.posted. rewrite flat_map_app. cbn.
  reflexivity.
Qed.
(** ** Any schedule *)

Section AnySchedule.

Variable Op : Type.
Variable C : Component Op.
Variable G : World -> World -> Prop.
Variable allowed : Input Op -> Prop.

Hypothesis G_refl : forall w, G w w.
Hypothesis G_trans : forall a b c, G a b -> G b c -> G a c.
Hypothesis body_steps : forall op,
  allowed (Invoke op) -> steps_in G (body C op).
Hypothesis handler_steps : steps_in G (handler C).
Hypothesis draw_steps : steps_in G draw.
Hypothesis frame_step : forall w spectrum rest,
  G w (upd_host (fun h => set_signal spectrum (set_frames rest h)) w).
Hypothesis source_ended_step : forall w n,
  G w (upd_host (fun h =>
         set_liveSources (remove Nat.eq_dec n (liveSources h)) h) w).
Hypothesis element_ended_step : forall w w' b,
  element_ended w = Some (w', b) -> G w w'.

Lemma spawn_steps k p w0 w ts :
  steps_in G p -> Forall (fun t => forall r, steps_in G (resume t r)) ts ->
  G w0 w ->
  G w0 (world (spawn k p w ts)) /\ steps_only G (spawn k p w ts).
Proof.
  intros Hp Hts Hw. unfold spawn, steps_only.
  destruct (@steps_in_advance G G_refl G_trans _ p Hp w) as (H1 & H2).
  destruct (advance p w) as [[r|h f] w']; cbn in *.
  - split; [eapply G_trans; eassumption|exact Hts].
  - split; [eapply G_trans; eassumption|].
    apply Forall_app. split; [exact Hts|].
    constructor; [exact H2|constructor].
Qed.

Lemma take_Forall {T} (P : T -> Prop) : forall n l t rest,
  take n l = Some (t, rest) -> Forall P l -> P t /\ Forall P rest.
Proof.
  intros n l. revert n.
  induction l as [|x l IH]; intros n t rest E Hl;
    [rewrite take_nil in E; discriminate|].
  inversion Hl as [|? ? Hx Hl']; subst.
  destruct n as [|n]; cbn in E.
  - injection E as <- <-. split; assumption.
  - destruct (take n l) as [[y r]|] eqn:Et; [|discriminate].
    injection E as <- <-. destruct (IH _ _ _ Et Hl') as (Hy & Hr).
    split; [exact Hy|constructor; assumption].
Qed.

Lemma step_steps i l :
  allowed i -> steps_only G l ->
  G (world l) (world (step C i l)) /\ steps_only G (step C i l).
Proof.
  intros Hi Hl. destruct l as [w ts]. unfold steps_only in Hl. cbn in Hl.
  destruct i as [op|n r|spectrum|n|]; cbn [step world tasks].
  - apply spawn_steps; [apply body_steps, Hi|exact Hl|apply G_refl].
  - destruct (take n ts) as [[t rest]|] eqn:Et.
    + destruct (@take_Forall _ _ _ _ _ _ Et Hl) as (Ht & Hrest).
      apply spawn_steps; [apply Ht|exact Hrest|apply G_refl].
    + split; [apply G_refl|exact Hl].
  - destruct (frames (host w)) as [|r rest].
    + split; [apply G_refl|exact Hl].
    + apply spawn_steps; [exact draw_steps|exact Hl|apply frame_step].
  - destruct (existsb (Nat.eqb n) (liveSources (host w))).
    + match goal with
      | |- context [if ?b then _ else _] => destruct b
      end.
      * apply spawn_steps;
          [exact handler_steps|exact Hl|apply source_ended_step].
      * split; [apply source_ended_step|exact Hl].
    + split; [apply G_refl|exact Hl].
  - destruct (element_ended w) as [[w' [|]]|] eqn:He.
    + apply spawn_steps;
        [exact handler_steps|exact Hl|eapply element_ended_step; exact He].
    + split; [eapply element_ended_step; exact He|exact Hl].
    + split; [apply G_refl|exact Hl].
Qed.

(** Whatever the schedule, the world moves by steps of [G]. *)
Lemma run_steps ins : forall l,
  Forall allowed ins -> steps_only G l ->
  G (world l) (world (run C ins l)).
Proof.
  induction ins as [|i ins IH]; cbn [run]; intros l Hi Hl; [apply G_refl|].
  inversion Hi as [|? ? H1 H2]; subst.
  destruct (@step_steps i l H1 Hl) as (Hs & Hl').
  eapply G_trans; [exact Hs|apply IH; assumption].
Qed.

End AnySchedule.

Lemma one_context_refl w : one_context w w.
Proof. repeat split. Qed.

Lemma one_context_trans a b c :
  one_context a b -> one_context b c -> one_context a c.
Proof. unfold one_context. intuition congruence. Qed.

Lemma one_context_quiet es :
  (forall e, In e es -> is_context_event e = false) ->
  steps_in one_context (emit_all es).
Proof.
  induction es as [|e es IH]; intros H; [exact I|].
  change (steps_in one_context (bind (emit e) (fun _ => emit_all es))).
  apply steps_in_bind.
  - unfold emit, modify. split; [|exact I].
    intros [r u h]. destruct h. unfold one_context, context_events. cbn.
    rewrite filter_app. cbn. rewrite (H e (or_introl eq_refl)).
    rewrite app_nil_r. repeat split.
  - intros _. apply IH. intros e' He'. apply H. right. exact He'.
Qed.

Lemma one_context_bars bs :
  steps_in one_context (emit_all (flat_map bar_events bs)).
Proof.
  apply one_context_quiet. intros e He. apply in_flat_map in He.
  destruct He as (b & _ & [<-|[<-|[]]]); reflexivity.
Qed.

Ltac one_context_goal :=
  idtac;
  lazymatch goal with
  | |- one_context ?w _ =>
      destruct w as [[] ? []]; unfold one_context, context_events; cbn;
      rewrite ?filter_app; cbn; rewrite ?app_nil_r; repeat split
  end.

Ltac one_context_run :=
  repeat first [ apply one_context_bars | steps_step one_context_goal ].

Lemma draw_one_context : steps_in one_context draw.
Proof. one_context_run. Qed.

Lemma V3_stopMic_one_context : steps_in one_context V3.stopMic.
Proof. one_context_run. Qed.

Lemma V3_stopPresetPlayback_one_context :
  steps_in one_context V3.stopPresetPlayback.
Proof. one_context_run. Qed.

Lemma V3_onended_handler_one_context :
  steps_in one_context V3.onended_handler.
Proof. one_context_run. Qed.

Lemma V3_startMic_one_context : steps_in one_context V3.startMic.
Proof. one_context_run. Qed.

Lemma V3_startPreset_one_context t :
  steps_in one_context (V3.startPreset t).
Proof. one_context_run. Qed.

Lemma V3_mount_tail w :
  exists w', advance V3.mount w = advance V3.startMic w' /\
             audioCtxRef (refs w') = Some (nextId (host w)).
Proof.
  unfold V3.mount.
  repeat (rewrite advance_bind;
          match goal with
          | |- context [advance ?p ?v] =>
              lazymatch p with
              | V3.startMic => fail
              | _ => let x := eval cbn in (advance p v) in
                     change (advance p v) with x
              end
          end; cbv beta iota).
  eexists. split; reflexivity.
Qed.

Lemma V3_mounted w :
  let l0 := step V3Loop.component (Invoke V3Loop.Mount) (start w) in
  audioCtxRef (refs (world l0)) = Some (nextId (host w)) /\
  steps_only one_context l0.
Proof.
  cbv zeta. cbn [step body V3Loop.component start world tasks].
  unfold spawn, steps_only.
  destruct (V3_mount_tail w) as (w' & E & Hc). rewrite E.
  destruct (@steps_in_advance one_context one_context_refl
              one_context_trans _ V3.startMic V3_startMic_one_context w')
    as ((H1 & _) & H2).
  destruct (advance V3.startMic w') as [[r|h f] u]; cbn in *.
  - split; [congruence|constructor].
  - split; [congruence|]. constructor; [exact H2|constructor].
Qed.

(** V3 keeps the one context it makes when it mounts.  Whatever is called
    afterwards and however the calls, the frames and the end-of-track
    events are interleaved with the browser's answers, the context, the
    analyser and the media source stay the ones the mount made, and no
    context is made, suspended or closed: a stop leaves the context
    running. *)
Theorem V3_keeps_its_context (ins : list (Input V3Loop.Op)) (w : World) :
  Forall after_mount ins ->
  let l0 := step V3Loop.component (Invoke V3Loop.Mount) (start w) in
  audioCtxRef (refs (world l0)) = Some (nextId (host w)) /\
  one_context (world l0) (world (run V3Loop.component ins l0)).
Proof.
  intros Hi. cbv zeta. destruct (V3_mounted w) as (Hc & Hl).
  split; [exact Hc|].
  apply (@run_steps _ V3Loop.component one_context after_mount
           one_context_refl one_context_trans).
  - intros [] H; cbn.
    + elim H.
    + exact V3_startMic_one_context.
    + exact V3_stopMic_one_context.
    + apply V3_startPreset_one_context.
    + exact V3_stopPresetPlayback_one_context.
  - exact V3_onended_handler_one_context.
  - exact draw_one_context.
  - intros u sp rest. one_context_goal.
  - intros u n. one_context_goal.
  - intros u u' b He. unfold element_ended in He.
    destruct (audioElRef (refs u)) as [el|]; [|discriminate].
    destruct (paused el); [discriminate|].
    injection He as <- _. one_context_goal.
  - exact Hi.
  - exact Hl.
Qed.

Lemma V3_keeps_its_context_witness :
  Forall after_mount startMic_twice /\
  one_context (world mounted)
    (world (run V3Loop.component startMic_twice mounted)).
Proof.
  assert (H : Forall after_mount startMic_twice)
    by (repeat constructor).
  split; [exact H|].
  exact (proj2 (@V3_keeps_its_context startMic_twice
                  (init (Some canvas333) 1) H)).
Defined.
(** ** Unmounting V3 while the browser asks for the microphone *)

Lemma V3_stopPresetPlayback_finishes w :
  wpg never V3.stopPresetPlayback
      (fun r u => r = Ok tt /\ audioCtxRef (refs u) = audioCtxRef (refs w)) w.
Proof.
  open_world w. wp_run never_monotone.
  all: split; reflexivity.
Qed.

Lemma V3_startMic_asks c w :
  audioCtxRef (refs w) = Some c ->
  exists k w1,
    advance V3.startMic w = (Pending CallGetUserMedia k, w1) /\
    forall u, audioCtxRef (refs u) = None ->
      wpg never (k Resolved) (fun r u' => r = Ok tt /\ leaked u u') u.
Proof.
  intros Hc. unfold V3.startMic, opt. cbn [advance]. rewrite Hc.
  unfold setBusy, modify. cbn [bind advance]. rewrite advance_bind.
  destruct (wpg_finishes _ _ _
              (V3_stopPresetPlayback_finishes (upd_ui (set_busy true) w)))
    as (r & w' & E & -> & _).
  rewrite E. cbv beta iota.
  unfold try_finally, setError, getUserMedia, emit, modify.
  cbn [advance try_catch bind].
  do 2 eexists. split; [reflexivity|].
  intros u Hu. cbv beta. open_world' u. cbn in Hu. subst.
  wp_run never_monotone.
  all: split; [reflexivity|].
  all: unfold leaked; cbn [refs ui host micStreamRef micSourceRef
                           audioCtxRef liveStreams mode isMicOn busy error].
  all: eexists; split; [reflexivity|].
  all: split; [apply in_or_app; right; left; reflexivity|].
  all: split; [count_stops|]; repeat split.
Qed.

Lemma cleanup3_release_finishes w :
  wpg never cleanup3_release (fun r _ => r = Ok tt) w.
Proof.
  open_world w. wp_run never_monotone.
  all: reflexivity.
Qed.

Lemma cleanup3_close_waits c w :
  exists k w', advance (cleanup3_close c) w = (Pending (CallSuspend c) k, w').
Proof.
  unfold cleanup3_close, ignoring, suspend, emit, modify.
  cbn [advance try_catch bind]. do 2 eexists. reflexivity.
Qed.

Lemma cleanup3_forget_finishes w :
  exists w', advance cleanup3_forget w = (Finished (Ok tt), w') /\
             audioCtxRef (refs w') = None.
Proof.
  unfold cleanup3_forget, store, modify. cbn [advance bind].
  eexists. split; reflexivity.
Qed.

Lemma spawn_finished k p w ts r w' :
  advance p w = (Finished r, w') ->
  spawn k p w ts = {| world := w'; tasks := ts |}.
Proof. intros E. unfold spawn. rewrite E. reflexivity. Qed.

Lemma spawn_pending k p w ts h f w' :
  advance p w = (Pending h f, w') ->
  spawn k p w ts =
  {| world := w';
     tasks := ts ++ [{| kind := k; awaiting := h; resume := f |}] |}.
Proof. intros E. unfold spawn. rewrite E. reflexivity. Qed.

(** Unmounting V3 while the browser still asks for the microphone leaks
    the stream.  The cleanup stops the stream it holds, which is none
    yet, sends the context to be closed without waiting, and clears the
    references; the request stays pending.  When it is granted,
    [startMic] stores the stream and then fails on the cleared
    [audioCtxRef]: its [catch] shows the TypeError and sets the mode to
    [idle], and nothing stops the stream, which is left capturing. *)
Theorem V3_unmount_leaks_the_stream (w : World) :
  let c := nextId (host w) in
  let l0 := step V3Loop.component (Invoke V3Loop.Mount) (start w) in
  let l1 := cleanup3 c l0 in
  let l2 := step V3Loop.component (Settle 0 Resolved) l1 in
  audioCtxRef (refs (world l0)) = Some c /\
  asking_and_closing c l1 /\
  audioCtxRef (refs (world l1)) = None /\
  leaked (world l1) (world l2).
Proof.
  cbv zeta. destruct (V3_mounted w) as (Hc0 & _).
  split; [exact Hc0|]. clear Hc0.
  cbn [step body V3Loop.component start world tasks].
  unfold cleanup3, call_unawaited, asking_and_closing.
  destruct (V3_mount_tail w) as (w' & E & Hc).
  destruct (@V3_startMic_asks _ w' Hc) as (k & w1 & E1 & Hk).
  rewrite E1 in E.
  rewrite (@spawn_pending CallTask _ _ [] _ _ _ E). cbn [world tasks app].
  destruct (wpg_finishes _ _ _ (cleanup3_release_finishes w1))
    as (r2 & w2 & E2 & ->).
  rewrite (@spawn_finished CallTask _ _ _ _ _ E2). cbn [world tasks].
  destruct (cleanup3_close_waits (nextId (host w)) w2) as (k3 & w3 & E3).
  rewrite (@spawn_pending CallTask _ _ _ _ _ _ E3). cbn [world tasks app].
  destruct (cleanup3_forget_finishes w3) as (w4 & E4 & Hc4).
  rewrite (@spawn_finished CallTask _ _ _ _ _ E4). cbn [world tasks].
  split; [do 2 eexists; repeat split; reflexivity|].
  split; [exact Hc4|].
  cbn [step take world tasks kind resume].
  destruct (wpg_finishes _ _ _ (Hk w4 Hc4)) as (r5 & w5 & E5 & -> & Hl).
  rewrite (@spawn_finished CallTask _ _ _ _ _ E5). cbn [world]. exact Hl.
Qed.
(** ** Unmounting with the microphone on *)

Lemma waits_at_monotone P : monotone (waits_at P).
Proof. intros h u K K' _ H. exact H. Qed.

Lemma wpg_waits {A} P (p : Async A) w :
  wpg (waits_at P) p (fun _ _ => False) w ->
  exists h k w', advance p w = (Pending h k, w') /\ P h w'.
Proof.
  intros H. pose proof (wpg_advance _ _ _ _ H) as H'.
  destruct (advance p w) as [[r|h k] w']; [contradiction|].
  exists h, k, w'. split; [reflexivity|exact H'].
Qed.

Ltac holding_goal :=
  unfold waits_at, holding; cbn [wpg refs host audioCtxRef micStreamRef
                                 liveStreams];
  repeat split; reflexivity.

Lemma V2_stopFilePlayback_holds c w :
  audioCtxRef (refs w) = Some c ->
  wpg (waits_at (holding c (micStreamRef (refs w)) (liveStreams (host w))))
      V2.stopFilePlayback (fun _ _ => False) w.
Proof.
  intros H. open_world w. cbn in H. subst.
  cbn [refs host micStreamRef liveStreams].
  wp_run (@waits_at_monotone (holding c micStreamRef0 liveStreams0)).
  all: holding_goal.
Qed.

Lemma V4_stopPresetPlayback_holds c w :
  audioCtxRef (refs w) = Some c ->
  wpg (waits_at (holding c (micStreamRef (refs w)) (liveStreams (host w))))
      V4.stopPresetPlayback (fun _ _ => False) w.
Proof.
  intros H. open_world w. cbn in H. subst.
  cbn [refs host micStreamRef liveStreams].
  wp_run (@waits_at_monotone (holding c micStreamRef0 liveStreams0)).
  all: holding_goal.
Qed.

Ltac released_goal :=
  unfold waits_at, mic_released_at;
  cbn [wpg refs host micStreamRef liveStreams rafIdRef];
  split; [reflexivity|]; split; [reflexivity|];
  split; [apply remove_In|reflexivity].

Lemma V2_stopMic_releases c s w :
  audioCtxRef (refs w) = Some c -> micStreamRef (refs w) = Some s ->
  wpg (waits_at (mic_released_at c s)) V2.stopMic (fun _ _ => False) w.
Proof.
  intros H Hs. open_world w. cbn in H, Hs. subst.
  wp_run (@waits_at_monotone (mic_released_at c s)).
  all: released_goal.
Qed.

Lemma V4_stopMic_releases c s w :
  audioCtxRef (refs w) = Some c -> micStreamRef (refs w) = Some s ->
  wpg (waits_at (mic_released_at c s)) V4.stopMic (fun _ _ => False) w.
Proof.
  intros H Hs. open_world w. cbn in H, Hs. subst.
  wp_run (@waits_at_monotone (mic_released_at c s)).
  all: released_goal.
Qed.

Lemma unmounted_on (stopA stopB : Async unit) c s w ts :
  (forall v, audioCtxRef (refs v) = Some c ->
     wpg (waits_at (holding c (micStreamRef (refs v))
                      (liveStreams (host v))))
         stopA (fun _ _ => False) v) ->
  (forall v, audioCtxRef (refs v) = Some c ->
     micStreamRef (refs v) = Some s ->
     wpg (waits_at (mic_released_at c s)) stopB (fun _ _ => False) v) ->
  audioCtxRef (refs w) = Some c -> micStreamRef (refs w) = Some s ->
  released_at_once c s ts
    (call_unawaited stopB
       (call_unawaited stopA
          (call_unawaited stopRenderLoop {| world := w; tasks := ts |}))).
Proof.
  intros HA HB Hc Hs. unfold call_unawaited. cbn [world tasks].
  rewrite (@spawn_finished CallTask _ _ _ _ _ (advance_stopRenderLoop w)).
  cbn [world tasks].
  assert (Hc1 : audioCtxRef (refs (stopRenderLoop_fx w)) = Some c)
    by (destruct w as [[] ? []]; exact Hc).
  assert (Hs1 : micStreamRef (refs (stopRenderLoop_fx w)) = Some s)
    by (destruct w as [[] ? []]; exact Hs).
  destruct (wpg_waits _ _ _ (HA _ Hc1))
    as (h2 & k2 & w2 & E2 & -> & Hc2 & Hs2 & _).
  rewrite (@spawn_pending CallTask _ _ _ _ _ _ E2). cbn [world tasks].
  rewrite Hs1 in Hs2.
  destruct (wpg_waits _ _ _ (HB _ Hc2 Hs2))
    as (h3 & k3 & w3 & E3 & -> & Hm & Hl & Hr).
  rewrite (@spawn_pending CallTask _ _ _ _ _ _ E3). cbn [world tasks].
  split; [|repeat split; assumption].
  do 2 eexists. rewrite <- app_assoc. repeat split; reflexivity.
Qed.

(** Unmounting V2 or V4 with the microphone on releases it at once.  The
    cleanup calls [stopRenderLoop], the playback stop and [stopMic]
    without awaiting them; when it returns, the stream's tracks are
    stopped, the stream is unreferenced and the loop is cancelled,
    before any promise settles.  Both stops are then waiting for
    [suspend()] of the same context: it is asked to suspend twice. *)
Theorem unmount_releases_the_microphone_at_once
  (c s : nat) (w : World) (ts : list Task) :
  audioCtxRef (refs w) = Some c -> micStreamRef (refs w) = Some s ->
  released_at_once c s ts (cleanup2 {| world := w; tasks := ts |}) /\
  released_at_once c s ts (cleanup4 {| world := w; tasks := ts |}).
Proof.
  intros Hc Hs. split.
  - exact (@unmounted_on V2.stopFilePlayback V2.stopMic c s w ts
             (@V2_stopFilePlayback_holds c) (@V2_stopMic_releases c s)
             Hc Hs).
  - exact (@unmounted_on V4.stopPresetPlayback V4.stopMic c s w ts
             (@V4_stopPresetPlayback_holds c) (@V4_stopMic_releases c s)
             Hc Hs).
Qed.

Lemma unmount_releases_the_microphone_at_once_witness :
  audioCtxRef (refs mic_on) = Some 1 /\ micStreamRef (refs mic_on) = Some 0 /\
  In 0 (liveStreams (host mic_on)) /\
  released_at_once 1 0 [] (cleanup2 (start mic_on)).
Proof.
  assert (Hc : audioCtxRef (refs mic_on) = Some 1)
    by (vm_compute; reflexivity).
  assert (Hs : micStreamRef (refs mic_on) = Some 0)
    by (vm_compute; reflexivity).
  assert (Hl : In 0 (liveStreams (host mic_on)))
    by (vm_compute; left; reflexivity).
  split; [exact Hc|]. split; [exact Hs|]. split; [exact Hl|].
  exact (proj1 (@unmount_releases_the_microphone_at_once 1 0 mic_on []
                  Hc Hs)).
Defined.
